(** * BatchMail: recipient/attachment reconciliation

    A shallow embedding of the upload and matching components of the
    repository:

    - [src/app/components/ui/AttachmentsUploader.tsx]
      ([fileBaseName], [rowsNameSet], [computed], [largePdfDetected],
      [onUpload]);
    - [src/app/actions/attachments.ts] ([fileBaseName], [isFileLike],
      [uploadAttachmentsAction]);
    - [src/app/components/ui/CsvUploader.tsx] ([guessRecipient],
      [guessName], [guessSubject], [handleFile], [onChangeSelect],
      [initializeManualEntry], [addManualRow], the row "Delete" handler).

    Modelling conventions.

    - A JavaScript string is a [string]: a sequence of 8-bit characters.
      Case folding ([toLowerCase], the [/i] flag) and [trim] are the ASCII
      ones.
    - A JavaScript number that counts things (lengths, sizes, tallies) is
      a [Z]; subtraction is the subtraction of [Z], not a truncated one.
    - A value that may be [undefined] or [null] is an [option].
    - An object used as a dictionary ([Record<string, ...>]) is a
      [gmap string _] over its own properties; [Object.entries] is
      [map_to_list].  Where the loop of [onUpload] reads a key that is
      not an own property, and where a manual row is filled, the
      properties of [Object.prototype] are taken into account
      ([inherited], [blank_row]).
    - A React component is a record of its state variables; an event
      handler is a function from the rendered state to the next state,
      together with the calls it makes to the parent's callback. *)

From Stdlib Require Import ZArith Ascii String List Bool Lia.
From stdpp Require Import base option list strings gmap fin_maps.

Local Open Scope string_scope.
Local Open Scope Z_scope.

(** ** JavaScript string primitives used by the sources *)

Module Js.

Definition is_upper (c : ascii) : bool :=
  let n := N_of_ascii c in (65 <=? n)%N && (n <=? 90)%N.

Definition lower_char (c : ascii) : ascii :=
  if is_upper c then ascii_of_N (N_of_ascii c + 32) else c.

(** [String.prototype.toLowerCase]. *)
Fixpoint toLowerCase (s : string) : string :=
  match s with
  | EmptyString => EmptyString
  | String c s' => String (lower_char c) (toLowerCase s')
  end.

(** [String.prototype.startsWith]. *)
Fixpoint startsWith (s t : string) {struct t} : bool :=
  match t, s with
  | EmptyString, _ => true
  | String _ _, EmptyString => false
  | String b t', String a s' => Ascii.eqb a b && startsWith s' t'
  end.

(** [String.prototype.includes]: [t] starts at some position of [s]. *)
Fixpoint includes (s t : string) : bool :=
  startsWith s t ||
  match s with
  | EmptyString => false
  | String _ s' => includes s' t
  end.

(** [String.prototype.endsWith]: some tail of [s] is [t]. *)
Fixpoint endsWith (s t : string) : bool :=
  String.eqb s t ||
  match s with
  | EmptyString => false
  | String _ s' => endsWith s' t
  end.

(** [s.lastIndexOf(c)] for a one-character needle; [-1] when absent. *)
Fixpoint lastIndexOf (s : string) (c : ascii) : Z :=
  match s with
  | EmptyString => -1
  | String a s' =>
      let i := lastIndexOf s' c in
      if 0 <=? i then i + 1
      else if Ascii.eqb a c then 0 else -1
  end.

(** [s.slice(from, to)]: negative positions count from the end, both
    are clamped to the length, an empty range gives the empty string. *)
Definition slice (s : string) (from to : Z) : string :=
  let len := Z.of_nat (String.length s) in
  let clamp i := if i <? 0 then Z.max (len + i) 0 else Z.min i len in
  let a := clamp from in
  let b := clamp to in
  substring (Z.to_nat a) (Z.to_nat (Z.max (b - a) 0)) s.

(** White space of [trim] and of the regular-expression class [\s]:
    tab, line feed, vertical tab, form feed, carriage return, space. *)
Definition is_space (c : ascii) : bool :=
  let n := N_of_ascii c in
  ((9 <=? n)%N && (n <=? 13)%N) || (n =? 32)%N.

Fixpoint trimStart (s : string) : string :=
  match s with
  | EmptyString => EmptyString
  | String c s' => if is_space c then trimStart s' else s
  end.

(** Drops the white space at the end: a character is kept when it is
    not a space or when something is kept after it. *)
Fixpoint trimEnd (s : string) : string :=
  match s with
  | EmptyString => EmptyString
  | String c s' =>
      match trimEnd s' with
      | EmptyString => if is_space c then EmptyString else String c EmptyString
      | r => String c r
      end
  end.

(** [String.prototype.trim]. *)
Definition trim (s : string) : string := trimEnd (trimStart s).

(** Truthiness of a string: [""] is falsy. *)
Definition truthy (s : string) : bool := negb (String.eqb s "").

(** [a || b] on possibly-undefined strings with a string default. *)
Definition or_else (a : option string) (b : string) : string :=
  match a with
  | Some s => if truthy s then s else b
  | None => b
  end.

End Js.

(** ** Base name of a file ([fileBaseName])

    The same function is declared in [AttachmentsUploader.tsx] and in
    [actions/attachments.ts]:
    [idx = name.lastIndexOf("."); idx > 0 ? name.slice(0, idx) : name]. *)

Definition dot : ascii := "."%char.

Definition fileBaseName (name : string) : string :=
  let idx := Js.lastIndexOf name dot in
  if 0 <? idx then Js.slice name 0 idx else name.

(** [has_dot s]: the character ["."] occurs in [s]. *)
Fixpoint has_dot (s : string) : bool :=
  match s with
  | EmptyString => false
  | String c s' => Ascii.eqb c dot || has_dot s'
  end.

(** ** Data model *)

(** [AttachmentEntry] (declared in both attachment sources). *)
Record AttachmentEntry := {
  filename : string;
  contentBase64 : string;
  contentType : option string;
  sizeBytes : option Z;
}.

(** [AttachIndex = Record<string, AttachmentEntry[]>]. *)
Abbreviation AttachIndex := (gmap string (list AttachmentEntry)).

(** A row of the table: [Record<string, string>]. *)
Abbreviation Row := (gmap string string).

(** [ParsedCsv]. *)
Record ParsedCsv := {
  headers : list string;
  rows : list Row;
  rowCount : Z;
}.

(** [CsvMapping]. The type declares [recipient] and [name] as strings, but
    [onChangeSelect] stores [value || null] in whichever field it edits,
    so each field can hold [null] at run time. *)
Record CsvMapping := {
  recipient : option string;
  name : option string;
  subject : option string;
}.

(** The part of a browser [File] the sources read: [file.name],
    [file.type], [file.size]. *)
Record File := {
  file_name : string;
  file_type : string;
  file_size : option Z;
}.

(** A property key: [r[k]] with [k = null] reads the property ["null"]. *)
Definition prop_key (k : option string) : string :=
  match k with Some s => s | None => "null" end.

(** ** Column guessing ([CsvUploader.tsx], lines 23-31) *)

(** [/^(a1|...|an)$/i.test(h)] for literal lower-case alternatives. *)
Definition test_alternatives (alts : list string) (h : string) : bool :=
  existsb (String.eqb (Js.toLowerCase h)) alts.

Definition recipient_alternatives : list string :=
  ["email"; "e-mail"; "recipient"; "to"; "address"].

Definition subject_alternatives : list string :=
  ["subject"; "title"; "headline"; "topic"].

(** The class [[_\s-]]. *)
Definition is_separator (c : ascii) : bool :=
  Ascii.eqb c "_" || Js.is_space c || Ascii.eqb c "-".

(** [pre[_\s-]?name] against an already lower-cased string. *)
Fixpoint test_prefix_sep_name (pre l : string) : bool :=
  match pre, l with
  | EmptyString, _ =>
      String.eqb l "name" ||
      match l with
      | String c r => is_separator c && String.eqb r "name"
      | EmptyString => false
      end
  | String p pre', String c l' => Ascii.eqb p c && test_prefix_sep_name pre' l'
  | String _ _, EmptyString => false
  end.

(** [/^(name|full[_\s-]?name|first[_\s-]?name)$/i.test(h)]. *)
Definition test_name (h : string) : bool :=
  let l := Js.toLowerCase h in
  String.eqb l "name" || test_prefix_sep_name "full" l
  || test_prefix_sep_name "first" l.

(** [headers.find(test) || headers[0] || ""]. *)
Definition guessRecipient (hs : list string) : string :=
  Js.or_else (find (test_alternatives recipient_alternatives) hs)
             (Js.or_else (head hs) "").

Definition guessName (hs : list string) : string :=
  Js.or_else (find test_name hs) (Js.or_else (head hs) "").

(** [headers.find(test) || null]. *)
Definition guessSubject (hs : list string) : option string :=
  match find (test_alternatives subject_alternatives) hs with
  | Some h => if Js.truthy h then Some h else None
  | None => None
  end.

Definition DEFAULT_HEADERS : list string := ["email"; "name"].

(** ** The table component ([CsvUploader.tsx]) *)

(** The state variables of the component ([dragActive] and the input
    element reference take no part in any table operation). *)
Record State := {
  csv : option ParsedCsv;
  mapping : option CsvMapping;
  error : option string;
  fileName : string;
  showManualEntry : bool;
  manualRow : Row;
}.

(** What a handler does: the state of the next render and the calls made
    to [onParsed], in order. *)
Record Step := {
  next : State;
  onParsed : list (ParsedCsv * CsvMapping);
}.

Definition set_csv (c : option ParsedCsv) (st : State) : State :=
  {| csv := c; mapping := mapping st; error := error st;
     fileName := fileName st; showManualEntry := showManualEntry st;
     manualRow := manualRow st |}.

Definition set_mapping (m : option CsvMapping) (st : State) : State :=
  {| csv := csv st; mapping := m; error := error st;
     fileName := fileName st; showManualEntry := showManualEntry st;
     manualRow := manualRow st |}.

Definition set_error (e : option string) (st : State) : State :=
  {| csv := csv st; mapping := mapping st; error := e;
     fileName := fileName st; showManualEntry := showManualEntry st;
     manualRow := manualRow st |}.

Definition set_fileName (f : string) (st : State) : State :=
  {| csv := csv st; mapping := mapping st; error := error st;
     fileName := f; showManualEntry := showManualEntry st;
     manualRow := manualRow st |}.

Definition set_showManualEntry (b : bool) (st : State) : State :=
  {| csv := csv st; mapping := mapping st; error := error st;
     fileName := fileName st; showManualEntry := b;
     manualRow := manualRow st |}.

Definition set_manualRow (r : Row) (st : State) : State :=
  {| csv := csv st; mapping := mapping st; error := error st;
     fileName := fileName st; showManualEntry := showManualEntry st;
     manualRow := r |}.

(** The state of the first render, given the [currentMapping] prop. *)
Definition initial (currentMapping : option CsvMapping) : State :=
  {| csv := None; mapping := currentMapping; error := None;
     fileName := ""; showManualEntry := false; manualRow := ∅ |}.

(** What Papa Parse reports for a file: [complete(results)] with
    [results.data] and [results.meta.fields], or [error(err)] with
    [err.message]. *)
Inductive ParseOutcome :=
| Complete (data : list (option Row)) (fields : option (list string))
| ParseError (message : option string).

Definition no_headers_message : string :=
  "No headers found. Ensure the first row contains column names.".

Definition handleFile (st : State) (fname : string) (res : ParseOutcome) : Step :=
  let st1 := set_fileName fname (set_error None st) in
  match res with
  | Complete data fields =>
      let rws := omap id data in
      let hs := default [] fields in
      if (Z.of_nat (length hs) =? 0) then
        {| next := set_error (Some no_headers_message) st1; onParsed := [] |}
      else
        let parsed := {| headers := hs; rows := rws;
                         rowCount := Z.of_nat (length rws) |} in
        let nextMapping :=
          {| recipient := Some (Js.or_else (mapping st ≫= recipient) (guessRecipient hs));
             name := Some (Js.or_else (mapping st ≫= name) (guessName hs));
             subject := match mapping st ≫= subject with
                        | Some s => Some s
                        | None => guessSubject hs
                        end |} in
        {| next := set_mapping (Some nextMapping) (set_csv (Some parsed) st1);
           onParsed := [(parsed, nextMapping)] |}
  | ParseError message =>
      {| next := set_error (Some (Js.or_else message "Failed to parse CSV")) st1;
         onParsed := [] |}
  end.

(** [keyof CsvMapping]. *)
Inductive MappingKey := KRecipient | KName | KSubject.

Definition set_field (m : CsvMapping) (key : MappingKey) (v : option string) : CsvMapping :=
  match key with
  | KRecipient => {| recipient := v; name := name m; subject := subject m |}
  | KName => {| recipient := recipient m; name := v; subject := subject m |}
  | KSubject => {| recipient := recipient m; name := name m; subject := v |}
  end.

Definition empty_mapping : CsvMapping :=
  {| recipient := Some ""; name := Some ""; subject := None |}.

Definition onChangeSelect (st : State) (key : MappingKey) (value : string) : Step :=
  match csv st with
  | None => {| next := st; onParsed := [] |}
  | Some c =>
      let nxt := set_field (default empty_mapping (mapping st)) key
                           (if Js.truthy value then Some value else None) in
      {| next := set_mapping (Some nxt) st; onParsed := [(c, nxt)] |}
  end.

(** [headers.forEach((h) => (newRow[h] = ""))] on a fresh object.  The
    assignment creates an own property, except under the key [__proto__]:
    there it calls the setter of [Object.prototype], which ignores a
    string. *)
Definition blank_row (hs : list string) : Row :=
  foldl (fun r h => if String.eqb h "__proto__" then r else <[h := ""]> r) ∅ hs.

Definition manual_mapping : CsvMapping :=
  {| recipient := Some "email"; name := Some "name"; subject := None |}.

Definition initializeManualEntry (st : State) : Step :=
  let st1 :=
    match csv st with
    | None =>
        let parsed := {| headers := DEFAULT_HEADERS; rows := []; rowCount := 0 |} in
        set_manualRow (<["name" := ""]> (<["email" := ""]> ∅))
          (set_mapping (Some manual_mapping) (set_csv (Some parsed) st))
    | Some c => set_manualRow (blank_row (headers c)) st
    end in
  {| next := set_showManualEntry true st1; onParsed := [] |}.

Definition missing_recipient_message : string :=
  "Email/recipient field is required.".

(** [currentMapping.recipient || "email"] in [addManualRow]. *)
Definition recipientKey (st : State) : string :=
  Js.or_else (recipient (default manual_mapping (mapping st))) "email".

(** [!manualRow[recipientKey]?.trim()]. *)
Definition recipient_missing (st : State) : bool :=
  match manualRow st !! recipientKey st with
  | None => true
  | Some v => negb (Js.truthy (Js.trim v))
  end.

Definition addManualRow (st : State) : Step :=
  let hs := match csv st with Some c => headers c | None => DEFAULT_HEADERS end in
  let currentMapping := default manual_mapping (mapping st) in
  if recipient_missing st then
    {| next := set_error (Some missing_recipient_message) st; onParsed := [] |}
  else
    let newRows := (match csv st with Some c => rows c | None => [] end
                    ++ [manualRow st])%list in
    let parsed := {| headers := hs; rows := newRows;
                     rowCount := Z.of_nat (length newRows) |} in
    {| next := set_error None (set_manualRow (blank_row hs) (set_csv (Some parsed) st));
       onParsed := [(parsed, currentMapping)] |}.

Definition cancelManualEntry (st : State) : Step :=
  {| next := set_error None (set_manualRow ∅ (set_showManualEntry false st));
     onParsed := [] |}.

(** [rows.filter((_, i) => i !== rowIndex)]. *)
Fixpoint remove_at {A} (i : nat) (l : list A) : list A :=
  match l, i with
  | [], _ => []
  | _ :: l', O => l'
  | x :: l', S i' => x :: remove_at i' l'
  end.

(** The "Delete" button of row [rowIndex]; it is rendered once per row of
    a table that exists. *)
Definition deleteRow (st : State) (rowIndex : nat) : Step :=
  match csv st with
  | None => {| next := st; onParsed := [] |}
  | Some c =>
      let newRows := remove_at rowIndex (rows c) in
      let parsed := {| headers := headers c; rows := newRows;
                       rowCount := Z.of_nat (length newRows) |} in
      {| next := set_csv (Some parsed) st;
         onParsed := match mapping st with
                     | Some m => [(parsed, m)]
                     | None => []
                     end |}
  end.

(** The "Reset" button. *)
Definition resetAll (st : State) : Step :=
  {| next := {| csv := None; mapping := None; error := None; fileName := "";
                showManualEntry := false; manualRow := ∅ |};
     onParsed := [] |}.

(** Typing in the input of column [header]:
    [setManualRow((prev) => ({ ...prev, [header]: value }))]. *)
Definition editManualCell (st : State) (header value : string) : Step :=
  {| next := set_manualRow (<[header := value]> (manualRow st)) st;
     onParsed := [] |}.

(** The user actions of the component; [reachable] collects the states
    they lead to from the first render. *)
Inductive Action :=
| ALoad (fname : string) (res : ParseOutcome)
| ASelect (key : MappingKey) (value : string)
| AManual
| AEdit (header value : string)
| AAdd
| ACancel
| ADelete (rowIndex : nat)
| AReset.

Definition act (st : State) (a : Action) : Step :=
  match a with
  | ALoad fname res => handleFile st fname res
  | ASelect key value => onChangeSelect st key value
  | AManual => initializeManualEntry st
  | AEdit header value => editManualCell st header value
  | AAdd => addManualRow st
  | ACancel => cancelManualEntry st
  | ADelete i => deleteRow st i
  | AReset => resetAll st
  end.

Inductive reachable (m0 : option CsvMapping) : State -> Prop :=
| reach_initial : reachable m0 (initial m0)
| reach_act st a : reachable m0 st -> reachable m0 (next (act st a)).

(** *** Predicates on tables and mappings used in the statements *)

(** [rowCount == rows.length]. *)
Definition counted (c : ParsedCsv) : Prop :=
  rowCount c = Z.of_nat (length (rows c)).

(** The table of a state, when there is one, is counted. *)
Definition table_counted (st : State) : Prop :=
  forall c, csv st = Some c -> counted c.

(** The recipient and the name column of [m] are headers of [c]. *)
Definition valid_mapping (c : ParsedCsv) (m : CsvMapping) : Prop :=
  (exists r, recipient m = Some r /\ r ∈ headers c)
  /\ (exists n, name m = Some n /\ n ∈ headers c).

(** A field of the new mapping is [v]: a header of the new table, or the
    non-empty value the previous mapping had in that field. *)
Definition inferred_or_kept (hs : list string) (prior : option string)
    (v : string) : Prop :=
  v ∈ hs \/ (prior = Some v /\ v <> "").

(** The actions other than a load, where a select of the recipient or of
    the name column picks a non-empty header of the table [c], as the
    options of the two select boxes do. *)
Definition picks_header (c : ParsedCsv) (a : Action) : Prop :=
  match a with
  | ALoad _ _ => False
  | ASelect KRecipient value | ASelect KName value =>
      value ∈ headers c /\ value <> ""
  | _ => True
  end.

(** The value the manual row holds in the recipient column is absent or
    empty once trimmed. *)
Definition recipient_blank (st : State) : Prop :=
  forall v, manualRow st !! recipientKey st = Some v -> Js.trim v = "".

(** The headers a manual row is appended under. *)
Definition current_headers (st : State) : list string :=
  match csv st with Some c => headers c | None => DEFAULT_HEADERS end.

Definition current_rows (st : State) : list Row :=
  match csv st with Some c => rows c | None => [] end.

(** ** The attachment component ([AttachmentsUploader.tsx]) and the upload
    action ([actions/attachments.ts]) *)

(** [computed] of the component. *)
Record Computed := {
  files : Z;
  matched : Z;
  unmatched : Z;
  unmatchedFiles : list string;
  matchedPairs : list (string * list string);
}.

(** What [onUpload] hands over: the index given to [onChange], the
    [failed] list and the message given to [setUploadError]. *)
Record Uploaded := {
  changed : AttachIndex;
  failedNames : list string;
  uploadError : option string;
}.

(** A value of [input.getAll("files")]: a string field or a file. *)
Inductive FormValue :=
| FormString (s : string)
| FormFile (f : File).

(** [UploadAttachmentsResult]. *)
Inductive UploadAttachmentsResult :=
| UploadOk (items : list (string * AttachmentEntry)) (failed : list string)
| UploadErr (err : string).

(** [typeof candidate.name === "string" &&
     typeof candidate.arrayBuffer === "function"]. *)
Definition isFileLike (v : FormValue) : option File :=
  match v with
  | FormFile f => Some f
  | FormString _ => None
  end.

(** [failed.push(file.name || "(unknown)")]. *)
Definition failed_label (file : File) : string :=
  Js.or_else (Some (file_name file)) "(unknown)".

(** [min] and [max] of [largePdfDetected]. *)
Definition pdf_min : Z := 1024 * 1024.
Definition pdf_max : Z := 2 * 1024 * 1024.

(** The callback of the inner [arr.some] in [largePdfDetected]. *)
Definition large_pdf_entry (entry : AttachmentEntry) : bool :=
  let size := default 0 (sizeBytes entry) in
  let fname := Js.or_else (Some (Js.toLowerCase (filename entry))) "" in
  let mime := Js.toLowerCase (Js.or_else (contentType entry) "") in
  let isPdf := Js.includes mime "pdf" || Js.endsWith fname ".pdf" in
  isPdf && (pdf_min <=? size) && (size <=? pdf_max).

(** [Object.values(value).some((arr) => arr.some(...))]. *)
Definition largePdfDetected (value : AttachIndex) : bool :=
  existsb (fun kv : string * list AttachmentEntry => existsb large_pdf_entry kv.2)
          (map_to_list value).

(** The property names of [Object.prototype].  A plain object has them
    all without owning them: reading one of them from an object that has
    no own property of that name gives a function (the prototype itself
    under [__proto__]), not [undefined]. *)
Definition object_prototype_keys : list string :=
  [ "constructor"; "__defineGetter__"; "__defineSetter__"; "hasOwnProperty";
    "__lookupGetter__"; "__lookupSetter__"; "isPrototypeOf";
    "propertyIsEnumerable"; "toString"; "valueOf"; "__proto__";
    "toLocaleString" ].

Definition inherited (k : string) : bool :=
  existsb (String.eqb k) object_prototype_keys.

Section Attachments.

(** [normalizeNameKey] is imported from [@/lib/normalizeName], and the
    encoder reads the bytes of the file; [None] is a read that throws. *)
Variable normalizeNameKey : string -> string.
Variable fileToBase64 : File -> option string.

(** [normalizeNameKey(String(r[k] || ""))]. *)
Definition row_key (k : string) (r : Row) : string :=
  normalizeNameKey (Js.or_else (r !! k) "").

Definition rowsNameSet (csv : option ParsedCsv) (mapping : option CsvMapping)
  : gset string :=
  match csv, mapping with
  | Some c, Some m => list_to_set (map (row_key (prop_key (name m))) (rows c))
  | _, _ => ∅
  end.

(** [csv?.rows.find(...)?.[mapping?.name || ""] || key]. *)
Definition originalName (csv : option ParsedCsv) (mapping : option CsvMapping)
    (key : string) : string :=
  let k := Js.or_else (mapping ≫= name) "" in
  let found :=
    match csv with
    | Some c => find (fun r => String.eqb (row_key k r) key) (rows c)
    | None => None
    end in
  Js.or_else (found ≫= fun r => r !! k) key.

(** The three accumulators of the [for ... of Object.entries(value)]
    loop: [matched], [unmatched], [matchedPairs]. *)
Definition tally : Type := Z * list string * list (string * list string).

Definition computed_body (csv : option ParsedCsv) (mapping : option CsvMapping)
    (acc : tally) (kv : string * list AttachmentEntry) : tally :=
  let '(m, un, pairs) := acc in
  let '(key, arr) := kv in
  if decide (key ∈ rowsNameSet csv mapping) then
    (m + Z.of_nat (length arr), un,
     pairs ++ [(originalName csv mapping key, map filename arr)])%list
  else
    (m, (un ++ map filename arr)%list, pairs).

Definition computed (csv : option ParsedCsv) (mapping : option CsvMapping)
    (value : AttachIndex) : Computed :=
  let entries := map_to_list value in
  let total := foldl (fun acc kv => acc + Z.of_nat (length kv.2)) 0 entries in
  let '(m, un, pairs) := foldl (computed_body csv mapping) (0, [], []) entries in
  {| files := total; matched := m; unmatched := total - m;
     unmatchedFiles := un; matchedPairs := pairs |}.

(** The entry built for a file whose content was read. *)
Definition entry_of (file : File) (content : string) : AttachmentEntry :=
  {| filename := file_name file;
     contentBase64 := content;
     contentType := if Js.truthy (file_type file) then Some (file_type file) else None;
     sizeBytes := file_size file |}.

(** One turn of the loop of [onUpload]: the [try] block appends to the
    bucket of the key, the [catch] block records the name.

    [next[normalized] || []] is the own bucket when there is one and [[]]
    when the read gives [undefined].  When [next] has no own bucket and
    [normalized] is a property name of [Object.prototype], the read gives
    the inherited value, which is truthy and not iterable: the spread
    throws inside the [try], and the [catch] block records the file. *)
Definition upload_body (acc : AttachIndex * list string) (file : File)
  : AttachIndex * list string :=
  let '(nxt, failed) := acc in
  match fileToBase64 file with
  | Some content =>
      let normalized := normalizeNameKey (fileBaseName (file_name file)) in
      match nxt !! normalized with
      | Some arr => (<[normalized := (arr ++ [entry_of file content])%list]> nxt, failed)
      | None =>
          if inherited normalized then (nxt, (failed ++ [failed_label file])%list)
          else (<[normalized := [entry_of file content]]> nxt, failed)
      end
  | None => (nxt, (failed ++ [failed_label file])%list)
  end.

(** [failed.slice(0, 6).join(", ")]. *)
Fixpoint join (sep : string) (l : list string) : string :=
  match l with
  | [] => ""
  | [x] => x
  | x :: l' => x ++ sep ++ join sep l'
  end.

Definition failed_message (failed : list string) : string :=
  "Failed: " ++ join ", " (take 6 failed)
  ++ (if 6 <? Z.of_nat (length failed) then "…" else "").

(** [onUpload(files)]: [None] when it returns before the loop, that is
    when [files] is [null] or empty. *)
Definition onUpload (value : AttachIndex) (fl : option (list File)) : option Uploaded :=
  match fl with
  | None => None
  | Some [] => None
  | Some l =>
      let '(nxt, failed) := foldl upload_body (value, []) l in
      Some {| changed := nxt; failedNames := failed;
              uploadError := if (0 <? Z.of_nat (length failed))
                             then Some (failed_message failed) else None |}
  end.

(** One turn of the loop of [uploadAttachmentsAction]. *)
Definition action_body
    (acc : list (string * AttachmentEntry) * list string) (file : File)
  : list (string * AttachmentEntry) * list string :=
  let '(items, failed) := acc in
  match fileToBase64 file with
  | Some content =>
      let key := normalizeNameKey (fileBaseName (file_name file)) in
      ((items ++ [(key, entry_of file content)])%list, failed)
  | None => (items, (failed ++ [failed_label file])%list)
  end.

(** [uploadAttachmentsAction], on the values of the ["files"] field. *)
Definition uploadAttachmentsAction (input : list FormValue) : UploadAttachmentsResult :=
  let fl := omap isFileLike input in
  match fl with
  | [] => UploadErr "No files provided"
  | _ =>
      let '(items, failed) := foldl action_body ([], []) fl in
      UploadOk items failed
  end.

(** *** What an upload call is expected to report

    The definitions below do not follow the loops: they say, file by
    file, what a call over [fl] produces, and the loops are compared with
    them. *)

(** The key of a file: the normalized base name. *)
Definition file_key (file : File) : string :=
  normalizeNameKey (fileBaseName (file_name file)).

(** The keyed entries of the files whose content was read, in order. *)
Definition decoded (fl : list File) : list (string * AttachmentEntry) :=
  omap (fun file => (fun content => (file_key file, entry_of file content))
                      <$> fileToBase64 file) fl.

(** The labels of the files whose content could not be read, in order. *)
Definition failures (fl : list File) : list string :=
  failed_label <$> filter (fun file => fileToBase64 file = None) fl.

(** Adding one keyed entry to an index, as the [try] block does. *)
Definition append_item (idx : AttachIndex) (item : string * AttachmentEntry)
  : AttachIndex :=
  <[item.1 := (default [] (idx !! item.1) ++ [item.2])%list]> idx.

(** The entries of [items] filed under [k], in order. *)
Fixpoint bucket_of (k : string) (items : list (string * AttachmentEntry))
  : list AttachmentEntry :=
  match items with
  | [] => []
  | (k', e) :: rest =>
      if decide (k' = k) then e :: bucket_of k rest else bucket_of k rest
  end.

(** A key under which [onUpload] cannot file anything: an inherited
    property name for which [value] has no bucket of its own. *)
Definition blocked (value : AttachIndex) (k : string) : bool :=
  inherited k && bool_decide (value !! k = None).

(** The keyed entries that [onUpload] adds to [value]: those of the files
    that were read and whose key is not blocked, in order. *)
Definition filed (value : AttachIndex) (fl : list File)
  : list (string * AttachmentEntry) :=
  omap (fun file =>
          if blocked value (file_key file) then None
          else (fun content => (file_key file, entry_of file content))
                 <$> fileToBase64 file) fl.

(** The labels that [onUpload] reports: the files that could not be read
    and the files whose key is blocked, in order. *)
Definition refused (value : AttachIndex) (fl : list File) : list string :=
  failed_label <$>
    filter (fun file => fileToBase64 file = None \/ blocked value (file_key file) = true) fl.

(** The bucket of [k] after [items] were added to [value]: the old
    entries, then the new ones; no bucket when there is neither. *)
Definition committed (value : AttachIndex) (items : list (string * AttachmentEntry))
    (k : string) : option (list AttachmentEntry) :=
  match bucket_of k items with
  | [] => value !! k
  | added => Some (default [] (value !! k) ++ added)%list
  end.

End Attachments.

(** [clearAll]: [onChange({})]. *)
Definition clearAll : AttachIndex := ∅.

(** ** Predicates used in the statements *)

(** Whole-string equality up to case. *)
Definition ci_eq (a b : string) : Prop := Js.toLowerCase a = Js.toLowerCase b.

(** [h] is, up to case, one of the names [alts]. *)
Definition ci_one_of (alts : list string) (h : string) : Prop :=
  Exists (ci_eq h) alts.

(** [h] is the first element of [hs] that satisfies [P]. *)
Definition first_such (P : string -> Prop) (hs : list string) (h : string) : Prop :=
  exists pre post : list string,
    hs = (pre ++ h :: post)%list /\ P h /\ Forall (fun x => ~ P x) pre.

(** [t] occurs in [s] up to case. *)
Definition ci_contains (s t : string) : Prop :=
  exists pre mid post : string, s = pre ++ mid ++ post /\ ci_eq mid t.

(** [s] ends in [t] up to case. *)
Definition ci_ends_with (s t : string) : Prop :=
  exists pre suf : string, s = pre ++ suf /\ ci_eq suf t.

(** The type condition of the policy: a declared content type containing
    [pdf], or a file name ending in [.pdf], up to case. *)
Definition pdf_typed (e : AttachmentEntry) : Prop :=
  (exists ct, contentType e = Some ct /\ ci_contains ct "pdf")
  \/ ci_ends_with (filename e) ".pdf".

(** The size condition: a declared size between 1 MiB and 2 MiB. *)
Definition mid_sized (e : AttachmentEntry) : Prop :=
  exists n, sizeBytes e = Some n /\ 1048576 <= n <= 2097152.

(** [e] is an entry of some bucket of [value]. *)
Definition entry_in (value : AttachIndex) (e : AttachmentEntry) : Prop :=
  exists (key : string) (arr : list AttachmentEntry),
    value !! key = Some arr /\ e ∈ arr.

Definition with_size (e : AttachmentEntry) (n : option Z) : AttachmentEntry :=
  {| filename := filename e; contentBase64 := contentBase64 e;
     contentType := contentType e; sizeBytes := n |}.

(** The number of entries of a list of buckets. *)
Definition entry_count (entries : list (string * list AttachmentEntry)) : Z :=
  foldl (fun acc kv => acc + Z.of_nat (length kv.2)) 0 entries.

(** ** Sample data *)

Definition sample_table : ParsedCsv :=
  {| headers := ["Name"; "Email"];
     rows := [ {[ "Name" := "Jane Doe"; "Email" := "jane@x.com" ]};
               {[ "Name" := "Bob"; "Email" := "bob@x.com" ]} ];
     rowCount := 2 |}.

Definition sample_mapping : CsvMapping :=
  {| recipient := Some "Email"; name := Some "Name"; subject := None |}.

Definition sample_state : State :=
  {| csv := Some sample_table; mapping := Some sample_mapping; error := None;
     fileName := "people.csv"; showManualEntry := false; manualRow := ∅ |}.

Definition jane_with_email : State :=
  {| csv := Some sample_table; mapping := Some sample_mapping; error := None;
     fileName := "people.csv"; showManualEntry := true;
     manualRow := {[ "Name" := "Jane"; "Email" := " jane@x.com " ]} |}.

Definition first_load : Action :=
  ALoad "people.csv" (Complete [] (Some ["Email"; "Name"])).

Definition second_load : Action :=
  ALoad "staff.csv" (Complete [] (Some ["Mail"; "Person"])).

(** The comment on [AttachIndex] describes its keys as "normalized name
    (lowercase, trimmed)"; the sample normalizer does just that. *)
Definition sample_normalize (s : string) : string := Js.toLowerCase (Js.trim s).

(** A sample reader in which exactly the file [broken.bin] cannot be read. *)
Definition sample_read (file : File) : option string :=
  if String.eqb (file_name file) "broken.bin" then None else Some "AAAA".

Definition jane_pdf : File :=
  {| file_name := "jane doe.pdf"; file_type := "application/pdf";
     file_size := Some 1258291 |}.

Definition broken_bin : File :=
  {| file_name := "broken.bin"; file_type := ""; file_size := Some 12 |}.

Definition carol_png : File :=
  {| file_name := "carol.png"; file_type := "image/png"; file_size := Some 2048 |}.

Definition jane_entry : AttachmentEntry :=
  {| filename := "jane doe.pdf"; contentBase64 := "AAAA";
     contentType := Some "application/pdf"; sizeBytes := Some 1258291 |}.

Definition carol_entry : AttachmentEntry :=
  {| filename := "carol.png"; contentBase64 := "AAAA";
     contentType := Some "image/png"; sizeBytes := Some 2048 |}.

(** A file that can be read and whose base name is a property name of
    [Object.prototype]. *)
Definition constructor_pdf : File :=
  {| file_name := "constructor.pdf"; file_type := "application/pdf";
     file_size := Some 1572864 |}.

Definition constructor_entry : AttachmentEntry :=
  {| filename := "constructor.pdf"; contentBase64 := "AAAA";
     contentType := Some "application/pdf"; sizeBytes := Some 1572864 |}.

(** The state after: a load of a table with the headers [Email] and
    [Name], "Add manually", an address typed in the [Email] cell, and a
    load of a second table with the headers [Mail] and [Person]. *)
Definition reloaded_while_typing : State :=
  let s1 := next (act (initial None) first_load) in
  let s2 := next (act s1 AManual) in
  let s3 := next (act s2 (AEdit "Email" "ann@x.com")) in
  next (act s3 second_load).

(** Every character of the string is an ASCII one.  On such strings the
    case folding and the white space of [Js] are those of JavaScript. *)
Fixpoint ascii_only (s : string) : bool :=
  match s with
  | EmptyString => true
  | String c s' => (N_of_ascii c <? 128)%N && ascii_only s'
  end.

(** ** Further definitions: the rest of the table component *)

Definition csv_only_message : string := "Only .csv files are supported.".

(** [onDrop]: [dropped] is [e.dataTransfer.files[0]], when there is one,
    with what Papa Parse reports for it. *)
Definition onDrop (st : State) (dropped : option (File * ParseOutcome)) : Step :=
  match dropped with
  | Some (file, res) =>
      if Js.includes (file_type file) "csv" || Js.endsWith (file_name file) ".csv"
      then handleFile st (file_name file) res
      else {| next := set_error (Some csv_only_message) st; onParsed := [] |}
  | None => {| next := st; onParsed := [] |}
  end.

(** [arr.filter((x, j) => keep x j)], the index counted from [j]. *)
Fixpoint filter_from {A} (keep : A -> nat -> bool) (j : nat) (l : list A) : list A :=
  match l with
  | [] => []
  | x :: l' =>
      if keep x j then x :: filter_from keep (S j) l'
      else filter_from keep (S j) l'
  end.

(** The header passes the name pattern: up to case it is [name], or
    [full] or [first] followed by at most one of [_], [-] or a white
    space, and then [name]. *)
Definition name_like (h : string) : Prop :=
  Js.toLowerCase h = "name"
  \/ exists pre sep : string,
       (pre = "full" \/ pre = "first")
       /\ (sep = "" \/ exists c, is_separator c = true /\ sep = String c "")
       /\ Js.toLowerCase h = pre ++ sep ++ "name".

(** The keys of a row are exactly the headers. *)
Definition has_header_set (hs : list string) (r : Row) : Prop :=
  forall h, is_Some (r !! h) <-> h ∈ hs.

(** ** Further definitions: statements about the index *)

(** The number of file names listed in the matched pairs. *)
Definition pair_files (pairs : list (string * list string)) : Z :=
  foldl (fun acc p => acc + Z.of_nat (length p.2)) 0 pairs.

(** Every entry sits in the bucket of the key of its own file name. *)
Definition keyed (normalizeNameKey : string -> string) (value : AttachIndex) : Prop :=
  forall k arr e,
    value !! k = Some arr -> e ∈ arr ->
    normalizeNameKey (fileBaseName (filename e)) = k.

(** No bucket is empty. *)
Definition no_empty_bucket (value : AttachIndex) : Prop :=
  forall k arr, value !! k = Some arr -> arr <> [].

(** A table without rows. *)
Definition empty_table : ParsedCsv :=
  {| headers := ["Name"]; rows := []; rowCount := 0 |}.

(** ** The route guard ([src/proxy.ts]) *)

(** What [proxy] reads of a request: [req.nextUrl.pathname],
    [req.nextUrl.search], [req.nextUrl.searchParams.get("redirect")],
    [req.headers.get("accept")] and the value of the [AUTH_COOKIE]
    cookie. *)
Record Request := {
  pathname : string;
  search : string;
  redirectParam : option string;
  accept : option string;
  token : option string;
}.

(** What [proxy] answers: [NextResponse.next()], a redirect to [target]
    resolved against the request, or a redirect to [/login] whose
    [redirect] parameter is set. *)
Inductive Response :=
| Next
| RedirectTo (target : string)
| RedirectToLogin (redirect : string).

Definition PUBLIC_PATH_PREFIXES : list string :=
  ["/_next"; "/api/"; "/templates"; "/images"; "/fonts"].

Definition PUBLIC_PATHS : list string := ["/login"; "/signup"; "/favicon.ico"].

Definition STATIC_EXTENSIONS : list string :=
  ["png"; "jpg"; "jpeg"; "gif"; "svg"; "webp"; "ico"; "txt"; "json"; "xml";
   "css"; "js"; "map"].

(** [STATIC_EXT.test(p)], for [/\.(png|...|map)$/i]. *)
Definition STATIC_EXT (p : string) : bool :=
  existsb (fun ext => Js.endsWith (Js.toLowerCase p) ("." ++ ext)) STATIC_EXTENSIONS.

Definition isPublicPath (p : string) : bool :=
  if String.eqb p "/" then false
  else if STATIC_EXT p then true
  else if existsb (String.eqb p) PUBLIC_PATHS then true
  else if existsb (Js.startsWith p) PUBLIC_PATH_PREFIXES then true
  else existsb (fun base => Js.startsWith p (base ++ "/")) PUBLIC_PATHS.

(** The class [[a-zA-Z0-9]]. *)
Definition is_alnum (c : ascii) : bool :=
  let n := N_of_ascii c in
  ((48 <=? n)%N && (n <=? 57)%N) || ((65 <=? n)%N && (n <=? 90)%N)
  || ((97 <=? n)%N && (n <=? 122)%N).

Fixpoint all_alnum (s : string) : bool :=
  match s with
  | EmptyString => true
  | String c s' => is_alnum c && all_alnum s'
  end.

(** [/\.[a-zA-Z0-9]+$/.test(s)]: some dot of [s] is followed, up to the
    end, by one or more letters or digits. *)
Fixpoint hasExt (s : string) : bool :=
  match s with
  | EmptyString => false
  | String c s' =>
      (Ascii.eqb c dot && negb (String.eqb s' "") && all_alnum s') || hasExt s'
  end.

Definition isHtmlRequest (req : Request) : bool :=
  if Js.includes (Js.or_else (accept req) "") "text/html" then true
  else negb (hasExt (pathname req)) && negb (Js.startsWith (pathname req) "/api/").

(** [if (token)]: the cookie is there and its value is not empty. *)
Definition has_token (req : Request) : bool :=
  match token req with
  | Some t => Js.truthy t
  | None => false
  end.

Definition proxy (req : Request) : Response :=
  if String.eqb (pathname req) "/login" || String.eqb (pathname req) "/signup" then
    if has_token req then
      RedirectTo match redirectParam req with
                 | Some dest => if Js.truthy dest && Js.startsWith dest "/"
                                then dest else "/"
                 | None => "/"
                 end
    else Next
  else if isPublicPath (pathname req) then Next
  else if negb (isHtmlRequest req) then Next
  else if negb (has_token req) then
    RedirectToLogin (Js.or_else (Some (pathname req ++ Js.or_else (Some (search req)) "")) "/")
  else Next.

(** The request for the login page that follows a redirect to it, once a
    cookie is there. *)
Definition login_request (redirect cookie : string) : Request :=
  {| pathname := "/login"; search := ""; redirectParam := Some redirect;
     accept := Some "text/html"; token := Some cookie |}.

(** A page request without a cookie. *)
Definition page_request (path query : string) : Request :=
  {| pathname := path; search := query; redirectParam := None;
     accept := Some "text/html,application/xhtml+xml"; token := None |}.

(** ** Sender profiles and environment (second part of
    [src/unnamed/part_004]) *)

(** A JavaScript [Map] with string keys is the list of its entries in
    insertion order, each key once. *)

(** [map.set(k, v)]: an existing key keeps its place, a new one goes last. *)
Fixpoint map_set {V} (k : string) (v : V) (m : list (string * V)) : list (string * V) :=
  match m with
  | [] => [(k, v)]
  | (k', v') :: rest =>
      if decide (k' = k) then (k, v) :: rest else (k', v') :: map_set k v rest
  end.

(** [map.get(k)]. *)
Fixpoint map_get {V} (k : string) (m : list (string * V)) : option V :=
  match m with
  | [] => None
  | (k', v') :: rest => if decide (k' = k) then Some v' else map_get k rest
  end.

(** The module state: [profileStore] and [activeProfileName]. *)
Record Profiles := {
  profileStore : list (string * gmap string string);
  activeProfileName : option string;
}.

Definition no_profiles : Profiles :=
  {| profileStore := []; activeProfileName := None |}.

(** [Array.from(profileStore.keys())]. *)
Definition listProfiles (st : Profiles) : list string := (profileStore st).*1.

Definition setProfile (st : Profiles) (name : string) (env : gmap string string)
  : Profiles :=
  let trimmed := Js.trim (Js.or_else (Some name) "") in
  if negb (Js.truthy trimmed) then st
  else {| profileStore := map_set trimmed env (profileStore st);
          activeProfileName := Some trimmed |}.

Definition clearAllProfiles (st : Profiles) : Profiles := no_profiles.

Definition getActiveEnv (st : Profiles) : gmap string string :=
  match activeProfileName st with
  | Some n => if Js.truthy n then default ∅ (map_get n (profileStore st)) else ∅
  | None => ∅
  end.

(** The calls that change the profiles, and the states they lead to from
    the empty store of a fresh module. *)
Inductive ProfileCall :=
| CallSet (name : string) (env : gmap string string)
| CallClear.

Definition call (st : Profiles) (c : ProfileCall) : Profiles :=
  match c with
  | CallSet name env => setProfile st name env
  | CallClear => clearAllProfiles st
  end.

Inductive profiles_reachable : Profiles -> Prop :=
| profiles_fresh : profiles_reachable no_profiles
| profiles_call st c : profiles_reachable st -> profiles_reachable (call st c).

(** [s] without its last character, when that is [q]. *)
Fixpoint without_last (q : ascii) (s : string) : option string :=
  match s with
  | EmptyString => None
  | String a EmptyString => if Ascii.eqb a q then Some EmptyString else None
  | String a rest => String a <$> without_last q rest
  end.

(** No line terminator, which [.] does not match: line feed, carriage
    return. *)
Fixpoint one_line (s : string) : bool :=
  match s with
  | EmptyString => true
  | String c s' =>
      negb (N_of_ascii c =? 10)%N && negb (N_of_ascii c =? 13)%N && one_line s'
  end.

(** [s.replace(re, "$1")], where [re] matches, over the whole string, the
    quote [q], any characters of one line as group 1, and [q] again. *)
Definition strip_quotes (q : ascii) (s : string) : string :=
  match s with
  | String a rest =>
      if Ascii.eqb a q then
        match without_last q rest with
        | Some inner => if one_line inner then inner else s
        | None => s
        end
      else s
  | EmptyString => s
  end.

Definition double_quote : ascii := ascii_of_N 34.
Definition single_quote : ascii := ascii_of_N 39.

(** [readEnv(key)] on [process.env]. *)
Definition readEnv (env : gmap string string) (key : string) : option string :=
  match env !! key with
  | None => None
  | Some raw =>
      let trimmed := Js.trim raw in
      if negb (Js.truthy trimmed) then None
      else Some (strip_quotes single_quote (strip_quotes double_quote trimmed))
  end.

(** [a ?? b]. *)
Definition nullish {A} (a b : option A) : option A :=
  match a with Some x => Some x | None => b end.

Definition readPassword (env : gmap string string) (prefix : string) : option string :=
  nullish (readEnv env (prefix ++ "_SENDER_APP_PASSWORD"))
          (readEnv env (prefix ++ "_SENDER_PASSWORD")).

(** [EnvMap]. *)
Record EnvMap := {
  SENDER_EMAIL : option string;
  SENDER_APP_PASSWORD : option string;
  SENDER_NAME : option string;
  HOST_DOMAIN : option string;
  PORT : option string;
  PORT_ALT : option string;
}.

Definition no_env : EnvMap :=
  {| SENDER_EMAIL := None; SENDER_APP_PASSWORD := None; SENDER_NAME := None;
     HOST_DOMAIN := None; PORT := None; PORT_ALT := None |}.

Definition readSenderEnv (env : gmap string string) (prefix : string) : EnvMap :=
  {| SENDER_EMAIL := readEnv env (prefix ++ "_SENDER_EMAIL");
     SENDER_APP_PASSWORD := readPassword env prefix;
     SENDER_NAME := readEnv env (prefix ++ "_SENDER_NAME");
     HOST_DOMAIN := None; PORT := None; PORT_ALT := None |}.

Definition readCyberphEnv (env : gmap string string) (prefix fallbackPrefix : string)
  : EnvMap :=
  {| SENDER_EMAIL := nullish (readEnv env (prefix ++ "_SENDER_EMAIL"))
                             (readEnv env (fallbackPrefix ++ "_SENDER_EMAIL"));
     SENDER_APP_PASSWORD := nullish (readPassword env prefix)
                                    (readPassword env fallbackPrefix);
     SENDER_NAME := nullish (readEnv env (prefix ++ "_SENDER_NAME"))
                            (readEnv env (fallbackPrefix ++ "_SENDER_NAME"));
     HOST_DOMAIN := nullish (readEnv env (prefix ++ "_HOST_DOMAIN"))
                            (readEnv env (fallbackPrefix ++ "_HOST_DOMAIN"));
     PORT := nullish (readEnv env (prefix ++ "_PORT"))
                     (readEnv env (fallbackPrefix ++ "_PORT"));
     PORT_ALT := nullish (readEnv env (prefix ++ "_PORT_ALT"))
                         (readEnv env (fallbackPrefix ++ "_PORT_ALT")) |}.

(** [SystemVariant]. *)
Inductive SystemVariant :=
| VDefault | VIcpep | VCisco | VArduinodayph | VCyberph | VCyberphNoreply.

Definition getEnvForVariant (env : gmap string string) (variant : SystemVariant)
  : EnvMap :=
  match variant with
  | VIcpep => readSenderEnv env "ICPEP"
  | VCisco => readSenderEnv env "CISCO"
  | VArduinodayph => readSenderEnv env "ARDUINODAYPH"
  | VCyberph => readCyberphEnv env "CYBERPH" "CYBERPH"
  | VCyberphNoreply => readCyberphEnv env "CYBERPH_NOREPLY" "CYBERPH"
  | VDefault => no_env
  end.

(** The variables of the no-reply profile. *)
Definition noreply_variables : list string :=
  ["CYBERPH_NOREPLY_SENDER_EMAIL"; "CYBERPH_NOREPLY_SENDER_APP_PASSWORD";
   "CYBERPH_NOREPLY_SENDER_PASSWORD"; "CYBERPH_NOREPLY_SENDER_NAME";
   "CYBERPH_NOREPLY_HOST_DOMAIN"; "CYBERPH_NOREPLY_PORT";
   "CYBERPH_NOREPLY_PORT_ALT"].

(** ** Credentials (first part of [src/unnamed/part_004] and
    [src/app/actions/auth.ts]) *)

(** [process.env.ADMIN_EMAIL] and [process.env.ADMIN_PASSWORD]. *)
Record AdminEnv := {
  ADMIN_EMAIL : option string;
  ADMIN_PASSWORD : option string;
}.

Definition getAdminCredentials (env : AdminEnv) : option string * option string :=
  ((fun s => Js.toLowerCase (Js.trim s)) <$> ADMIN_EMAIL env, ADMIN_PASSWORD env).

(** [!x] for a possibly-undefined string. *)
Definition falsy (x : option string) : bool :=
  match x with Some s => negb (Js.truthy s) | None => true end.

Definition validateCredentials (env : AdminEnv) (email password : string) : bool :=
  let admin := getAdminCredentials env in
  if falsy admin.1 || falsy admin.2 then false
  else
    let emailNorm := Js.toLowerCase (Js.trim email) in
    bool_decide (Some emailNorm = admin.1) && bool_decide (Some password = admin.2).

(** [LoginResult], with the cookie that a success sets. *)
Inductive LoginResult :=
| LoginOk (cookie : string)
| LoginError (message : string).

Section Login.

(** [generateAuthToken] encodes the email and the clock in base 64. *)
Variable generateAuthToken : string -> string.

Definition loginAction (env : AdminEnv) (email password : string) : LoginResult :=
  if negb (Js.truthy email) || negb (Js.truthy password) then
    LoginError "Email and password are required"
  else if negb (validateCredentials env email password) then
    LoginError "Invalid email or password"
  else LoginOk (generateAuthToken email).

End Login.

(** ** Further definitions: statements about the profiles *)

(** What holds of the store in every reachable state. *)
Definition profiles_consistent (st : Profiles) : Prop :=
  NoDup (listProfiles st)
  /\ ("" ∉ listProfiles st)
  /\ (activeProfileName st = None -> profileStore st = [])
  /\ (forall n, activeProfileName st = Some n ->
        n ∈ listProfiles st
        /\ map_get n (profileStore st) = Some (getActiveEnv st)).

(** A configured administrator. *)
Definition sample_admin : AdminEnv :=
  {| ADMIN_EMAIL := Some " Admin@Example.org "; ADMIN_PASSWORD := Some "s3cret" |}.

(** * Properties *)

(** ** The primitives on test vectors *)

Example toLowerCase_vector : Js.toLowerCase "Jane.PDF [x]" = "jane.pdf [x]".
Proof. reflexivity. Qed.

Example trim_vector : Js.trim "  jane  doe   " = "jane  doe".
Proof. reflexivity. Qed.

Example trim_blank_vector : Js.trim "    " = "".
Proof. reflexivity. Qed.

Example lastIndexOf_vector :
  Js.lastIndexOf "report.v2.pdf" dot = 9 /\ Js.lastIndexOf "README" dot = -1
  /\ Js.lastIndexOf ".gitignore" dot = 0.
Proof. repeat split. Qed.

Example slice_vector :
  Js.slice "report.v2.pdf" 0 9 = "report.v2" /\ Js.slice "abcdef" (-3) (-1) = "de"
  /\ Js.slice "abc" 2 1 = "" /\ Js.slice "abc" 1 10 = "bc".
Proof. repeat split. Qed.

Example includes_vector :
  Js.includes "application/pdf" "pdf" = true
  /\ Js.includes "image/png" "pdf" = false
  /\ Js.endsWith "a.pdf.txt" ".pdf" = false
  /\ Js.endsWith "a.txt.pdf" ".pdf" = true.
Proof. repeat split. Qed.

Example test_name_vector :
  test_name "Name" = true /\ test_name "FULL NAME" = true
  /\ test_name "first_name" = true /\ test_name "Full-Name" = true
  /\ test_name "fullname" = true /\ test_name "full  name" = false
  /\ test_name "names" = false /\ test_name "last name" = false.
Proof. repeat split. Qed.

Example guessName_vector :
  guessName ["Email"; "First Name"; "Name"] = "First Name"
  /\ guessName ["Email"; "Phone"] = "Email" /\ guessName [] = "".
Proof. repeat split. Qed.

(** ** Strings *)

Section StringFacts.

Lemma string_length_app (s t : string) :
  String.length (s ++ t) = (String.length s + String.length t)%nat.
Proof. induction s as [|c s IH]; simpl; [reflexivity | now rewrite IH]. Qed.

Lemma substring_prefix (s t : string) :
  substring 0 (String.length s) (s ++ t) = s.
Proof.
  induction s as [|c s IH]; simpl.
  - destruct t; reflexivity.
  - now rewrite IH.
Qed.

(** [slice(0, n)] of a string that starts with [n] known characters. *)
Lemma slice_prefix (s t : string) :
  Js.slice (s ++ t) 0 (Z.of_nat (String.length s)) = s.
Proof.
  unfold Js.slice. rewrite string_length_app.
  replace (0 <? 0) with false by reflexivity.
  destruct (Z.ltb_spec (Z.of_nat (String.length s)) 0) as [Hneg|_]; [lia|].
  rewrite Z.min_l by lia. rewrite Z.min_l by lia.
  rewrite Z.sub_0_r, Z.max_l by lia.
  rewrite Nat2Z.id. apply substring_prefix.
Qed.

Lemma lastIndexOf_lower_bound (s : string) (c : ascii) :
  -1 <= Js.lastIndexOf s c.
Proof.
  induction s as [|a s IH]; simpl; [lia|].
  destruct (Z.leb_spec 0 (Js.lastIndexOf s c)); [lia|].
  destruct (Ascii.eqb a c); lia.
Qed.

Lemma lastIndexOf_absent (s : string) :
  has_dot s = false -> Js.lastIndexOf s dot = -1.
Proof.
  induction s as [|a s IH]; simpl; [reflexivity|].
  intros H. apply orb_false_elim in H as [Ha Hs].
  rewrite (IH Hs), Ha. reflexivity.
Qed.

(** The last dot of [stem . ext] is the one written, when [ext] has none. *)
Lemma lastIndexOf_last_segment (stem ext : string) :
  has_dot ext = false ->
  Js.lastIndexOf (stem ++ String dot ext) dot = Z.of_nat (String.length stem).
Proof.
  intros Hext. induction stem as [|a stem IH].
  - simpl. rewrite (lastIndexOf_absent _ Hext). reflexivity.
  - change (Js.lastIndexOf (String a stem ++ String dot ext) dot)
      with (let i := Js.lastIndexOf (stem ++ String dot ext) dot in
            if 0 <=? i then i + 1 else if Ascii.eqb a dot then 0 else -1).
    rewrite IH. cbv zeta.
    destruct (Z.leb_spec 0 (Z.of_nat (String.length stem))) as [_|Hneg];
      [simpl String.length; lia | lia].
Qed.

End StringFacts.

(** ** C3: base name *)

(** C3. [fileBaseName] strips only the last extension segment, and only a
    dot that is not the first character starts one: a name [stem.ext] with
    a non-empty [stem] (which may itself contain dots) and a dot-free
    [ext] gives [stem]; a name whose only dot is its first character, and
    a name with no dot, are returned as they are; the three vectors of the
    specification hold. *)
Theorem fileBaseName_last_segment :
  (forall stem ext : string,
      stem <> "" -> has_dot ext = false ->
      fileBaseName (stem ++ String dot ext) = stem)
  /\ (forall ext : string,
         has_dot ext = false -> fileBaseName (String dot ext) = String dot ext)
  /\ (forall name : string, has_dot name = false -> fileBaseName name = name)
  /\ fileBaseName "report.v2.pdf" = "report.v2"
  /\ fileBaseName "README" = "README"
  /\ fileBaseName ".gitignore" = ".gitignore".
Proof.
  repeat split; try reflexivity.
  - intros stem ext Hstem Hext. unfold fileBaseName.
    rewrite (lastIndexOf_last_segment stem ext Hext).
    destruct stem as [|a stem]; [congruence|].
    destruct (Z.ltb_spec 0 (Z.of_nat (String.length (String a stem)))) as [_|Hle];
      [apply slice_prefix | simpl in Hle; lia].
  - intros ext Hext. unfold fileBaseName.
    change (String dot ext) with ("" ++ String dot ext).
    rewrite (lastIndexOf_last_segment "" ext Hext). reflexivity.
  - intros name Hname. unfold fileBaseName.
    rewrite (lastIndexOf_absent name Hname). reflexivity.
Qed.

Lemma fileBaseName_last_segment_witness :
  fileBaseName ("archive.tar" ++ String dot "gz") = "archive.tar"
  /\ fileBaseName (String dot "bashrc") = String dot "bashrc"
  /\ fileBaseName "Makefile" = "Makefile".
Proof.
  destruct fileBaseName_last_segment as (Hstem & Hdot & Hnone & _).
  split; [apply Hstem; [discriminate | reflexivity]|].
  split; [apply Hdot; reflexivity | apply Hnone; reflexivity].
Defined.

(** ** C8: column inference *)

Section Guessing.

Lemma test_alternatives_spec (alts : list string) (h : string) :
  Forall (fun a => Js.toLowerCase a = a) alts ->
  test_alternatives alts h = true <-> ci_one_of alts h.
Proof.
  unfold test_alternatives, ci_one_of, ci_eq.
  induction 1 as [|a alts Ha _ IH]; simpl.
  - split; [discriminate | intros H; inversion H].
  - rewrite orb_true_iff, IH, String.eqb_eq, Exists_cons, Ha. reflexivity.
Qed.

Lemma recipient_alternatives_lower :
  Forall (fun a => Js.toLowerCase a = a) recipient_alternatives.
Proof. repeat constructor. Qed.

Lemma subject_alternatives_lower :
  Forall (fun a => Js.toLowerCase a = a) subject_alternatives.
Proof. repeat constructor. Qed.

(** A header that passes a test with non-empty alternatives is not the
    empty string, so [||] keeps it. *)
Lemma test_alternatives_truthy (alts : list string) (h : string) :
  test_alternatives alts "" = false ->
  test_alternatives alts h = true -> Js.truthy h = true.
Proof. destruct h; [congruence | reflexivity]. Qed.

Lemma find_first_such (f : string -> bool) (hs : list string) (h : string) :
  find f hs = Some h <->
  first_such (fun x => f x = true) hs h.
Proof.
  unfold first_such. split.
  - induction hs as [|x hs IH]; simpl; [discriminate|].
    destruct (f x) eqn:Hx.
    + intros [= <-]. exists [], hs. repeat split; [exact Hx | constructor].
    + intros Hfind. destruct (IH Hfind) as (pre & post & -> & Hh & Hpre).
      exists (x :: pre), post. repeat split; [exact Hh|].
      constructor; [congruence | exact Hpre].
  - intros (pre & post & -> & Hh & Hpre).
    induction Hpre as [|x pre Hx _ IH]; simpl.
    + now rewrite Hh.
    + destruct (f x); [congruence | exact IH].
Qed.

Lemma find_none_all (f : string -> bool) (hs : list string) :
  find f hs = None <-> Forall (fun x => f x <> true) hs.
Proof.
  induction hs as [|x hs IH]; simpl.
  - split; [constructor | reflexivity].
  - destruct (f x) eqn:Hx.
    + split; [discriminate|]. intros H. inversion H; congruence.
    + rewrite IH. split.
      * intros H. constructor; [congruence | exact H].
      * intros H. now inversion H.
Qed.

Lemma first_such_iff (P Q : string -> Prop) (hs : list string) (h : string) :
  (forall x, P x <-> Q x) -> first_such P hs h <-> first_such Q hs h.
Proof.
  intros HPQ. unfold first_such.
  split; intros (pre & post & Hhs & Hh & Hpre); exists pre, post;
    (split; [exact Hhs|]); (split; [now apply HPQ|]);
    (eapply Forall_impl; [exact Hpre|]); intros x Hx Hc;
    apply Hx; now apply HPQ.
Qed.

End Guessing.

(** C8. On a non-empty header list, [guessRecipient] is the first header
    that is, up to case and as a whole string, one of [email], [e-mail],
    [recipient], [to], [address], and the first header of the list when
    there is none; [guessSubject] is the first header that is one of
    [subject], [title], [headline], [topic], and is absent (never the
    first header) when there is none. *)
Theorem guess_columns (h0 : string) (rest : list string) :
  let hs := h0 :: rest in
  let rcp := ci_one_of ["email"; "e-mail"; "recipient"; "to"; "address"] in
  let sbj := ci_one_of ["subject"; "title"; "headline"; "topic"] in
  (forall h, first_such rcp hs h -> guessRecipient hs = h)
  /\ (Forall (fun x => ~ rcp x) hs -> guessRecipient hs = h0)
  /\ (forall h, first_such sbj hs h <-> guessSubject hs = Some h)
  /\ (Forall (fun x => ~ sbj x) hs <-> guessSubject hs = None).
Proof.
  intros hs rcp sbj.
  pose proof (fun x => test_alternatives_spec _ x recipient_alternatives_lower) as Hr.
  pose proof (fun x => test_alternatives_spec _ x subject_alternatives_lower) as Hs.
  pose proof (fun h => first_such_iff _ _ hs h Hr) as Hfr.
  pose proof (fun h => first_such_iff _ _ hs h Hs) as Hfs.
  assert (Hsome : forall h, find (test_alternatives subject_alternatives) hs = Some h
                            <-> guessSubject hs = Some h).
  { intros h. unfold guessSubject.
    destruct (find _ hs) as [x|] eqn:Hfind; [|split; discriminate].
    apply find_first_such in Hfind as (_ & _ & _ & Hx & _).
    rewrite (test_alternatives_truthy subject_alternatives x eq_refl Hx).
    reflexivity. }
  repeat split.
  - intros h Hh. unfold guessRecipient.
    apply Hfr in Hh. pose proof Hh as (_ & _ & _ & Hx & _).
    apply find_first_such in Hh. rewrite Hh. simpl.
    now rewrite (test_alternatives_truthy recipient_alternatives h eq_refl Hx).
  - intros Hnone. unfold guessRecipient.
    assert (Hfind : find (test_alternatives recipient_alternatives) hs = None).
    { apply find_none_all. eapply Forall_impl; [exact Hnone|].
      intros x Hx Hc. apply Hx. now apply Hr. }
    rewrite Hfind. simpl. destruct h0; reflexivity.
  - intros Hh. apply Hsome, find_first_such. now apply Hfs.
  - intros Hg. apply Hfs, find_first_such. now apply Hsome.
  - intros Hnone. unfold guessSubject.
    assert (Hfind : find (test_alternatives subject_alternatives) hs = None).
    { apply find_none_all. eapply Forall_impl; [exact Hnone|].
      intros x Hx Hc. apply Hx. now apply Hs. }
    now rewrite Hfind.
  - intros Hg.
    assert (Hfind : find (test_alternatives subject_alternatives) hs = None).
    { destruct (find _ hs) as [x|] eqn:Hfind; [|reflexivity].
      pose proof (proj1 (Hsome x) eq_refl). congruence. }
    apply find_none_all in Hfind. eapply Forall_impl; [exact Hfind|].
    intros x Hx Hc. apply Hx. now apply Hs.
Qed.

Lemma guess_columns_witness :
  guessRecipient ["Name"; "E-Mail"; "To"] = "E-Mail"
  /\ guessRecipient ["Name"; "Phone"] = "Name"
  /\ guessSubject ["Name"; "TITLE"; "topic"] = Some "TITLE"
  /\ guessSubject ["Name"; "Phone"] = None.
Proof.
  destruct (guess_columns "Name" ["E-Mail"; "To"]) as (Hfirst & _ & _ & _).
  destruct (guess_columns "Name" ["Phone"]) as (_ & Hfall & _ & Hnone).
  destruct (guess_columns "Name" ["TITLE"; "topic"]) as (_ & _ & Hsub & _).
  assert (Hno : forall alts, Forall (fun a => Js.toLowerCase a = a) alts ->
                  test_alternatives alts "Name" = false ->
                  test_alternatives alts "Phone" = false ->
                  Forall (fun x => ~ ci_one_of alts x) ["Name"; "Phone"]).
  { intros alts Hlow H1 H2.
    repeat constructor; intros Hc; apply test_alternatives_spec in Hc;
      congruence. }
  split.
  { apply Hfirst. exists ["Name"], ["To"]. split; [reflexivity|]. split.
    - apply Exists_cons_tl, Exists_cons_hd. reflexivity.
    - repeat constructor. intros Hc.
      apply (test_alternatives_spec _ _ recipient_alternatives_lower) in Hc.
      discriminate Hc. }
  split.
  { apply Hfall. apply (Hno _ recipient_alternatives_lower); reflexivity. }
  split.
  { apply Hsub. exists ["Name"], ["topic"]. split; [reflexivity|]. split.
    - apply Exists_cons_tl, Exists_cons_hd. reflexivity.
    - repeat constructor. intros Hc.
      apply (test_alternatives_spec _ _ subject_alternatives_lower) in Hc.
      discriminate Hc. }
  apply Hnone. apply (Hno _ subject_alternatives_lower); reflexivity.
Defined.

(** ** C2 and C9: the batch policy *)

Section Policy.

Lemma append_cons (c : ascii) (s t : string) :
  String c s ++ t = String c (s ++ t).
Proof. reflexivity. Qed.

Lemma toLowerCase_app (s t : string) :
  Js.toLowerCase (s ++ t) = Js.toLowerCase s ++ Js.toLowerCase t.
Proof.
  induction s as [|c s IH]; [reflexivity|].
  rewrite append_cons. simpl. now rewrite IH.
Qed.

(** A split of the folded string comes from a split of the string. *)
Lemma toLowerCase_split (a b s : string) :
  Js.toLowerCase s = a ++ b ->
  exists s1 s2, s = s1 ++ s2 /\ Js.toLowerCase s1 = a /\ Js.toLowerCase s2 = b.
Proof.
  revert s. induction a as [|x a IH]; intros s Hs.
  - exists "", s. repeat split. exact Hs.
  - destruct s as [|c s]; [discriminate|].
    rewrite append_cons in Hs. simpl in Hs. injection Hs as Hc Hrest.
    destruct (IH s Hrest) as (s1 & s2 & -> & H1 & H2).
    exists (String c s1), s2. simpl. rewrite Hc, H1. repeat split. exact H2.
Qed.

Lemma startsWith_spec (s t : string) :
  Js.startsWith s t = true <-> exists post, s = t ++ post.
Proof.
  revert s. induction t as [|b t IH]; intros s; simpl.
  - split; [intros _; now exists s | reflexivity].
  - destruct s as [|a s].
    + split; [discriminate | intros [post Hpost]; discriminate].
    + rewrite andb_true_iff, IH, Ascii.eqb_eq. split.
      * intros [-> [post ->]]. now exists post.
      * intros [post [= -> ->]]. split; [reflexivity | now exists post].
Qed.

Lemma includes_spec (s t : string) :
  Js.includes s t = true <-> exists pre post, s = pre ++ t ++ post.
Proof.
  induction s as [|a s IH].
  - simpl. rewrite orb_false_r, startsWith_spec. split.
    + intros [post Hpost]. now exists "", post.
    + intros (pre & post & Hs). destruct pre; [now exists post | discriminate].
  - cbn [Js.includes]. rewrite orb_true_iff, startsWith_spec, IH. split.
    + intros [[post Hpost] | (pre & post & ->)].
      * now exists "", post.
      * now exists (String a pre), post.
    + intros (pre & post & Hs). destruct pre as [|x pre].
      * left. now exists post.
      * right. injection Hs as _ ->. now exists pre, post.
Qed.

Lemma endsWith_spec (s t : string) :
  Js.endsWith s t = true <-> exists pre, s = pre ++ t.
Proof.
  induction s as [|a s IH].
  - cbn [Js.endsWith]. rewrite orb_false_r, String.eqb_eq. split.
    + intros <-. now exists "".
    + intros [pre Hs]. destruct pre; [exact Hs | discriminate].
  - cbn [Js.endsWith]. rewrite orb_true_iff, String.eqb_eq, IH. split.
    + intros [<- | [pre ->]]; [now exists "" | now exists (String a pre)].
    + intros [pre Hs]. destruct pre as [|x pre].
      * now left.
      * right. injection Hs as _ ->. now exists pre.
Qed.

(** [s.toLowerCase().includes(t)] for a lower-case [t]. *)
Lemma includes_lower_spec (s t : string) :
  Js.toLowerCase t = t ->
  Js.includes (Js.toLowerCase s) t = true <-> ci_contains s t.
Proof.
  intros Ht. rewrite includes_spec. unfold ci_contains, ci_eq. rewrite Ht. split.
  - intros (pre & post & Hs).
    apply toLowerCase_split in Hs as (s1 & s2 & -> & _ & H2).
    apply toLowerCase_split in H2 as (m & p & -> & Hm & _).
    now exists s1, m, p.
  - intros (pre & mid & post & -> & Hmid).
    exists (Js.toLowerCase pre), (Js.toLowerCase post).
    now rewrite !toLowerCase_app, Hmid.
Qed.

(** [s.toLowerCase().endsWith(t)] for a lower-case [t]. *)
Lemma endsWith_lower_spec (s t : string) :
  Js.toLowerCase t = t ->
  Js.endsWith (Js.toLowerCase s) t = true <-> ci_ends_with s t.
Proof.
  intros Ht. rewrite endsWith_spec. unfold ci_ends_with, ci_eq. rewrite Ht. split.
  - intros (pre & Hs).
    apply toLowerCase_split in Hs as (s1 & s2 & -> & _ & H2).
    now exists s1, s2.
  - intros (pre & suf & -> & Hsuf).
    exists (Js.toLowerCase pre). now rewrite toLowerCase_app, Hsuf.
Qed.

Lemma ci_contains_empty (t : string) : t <> "" -> ~ ci_contains "" t.
Proof.
  intros Ht (pre & mid & post & Hs & Hmid). unfold ci_eq in Hmid.
  destruct pre; [|discriminate]. destruct mid; [|discriminate].
  destruct t; [congruence | discriminate].
Qed.

(** The type test of [large_pdf_entry]. *)
Lemma pdf_test_spec (e : AttachmentEntry) :
  Js.includes (Js.toLowerCase (Js.or_else (contentType e) "")) "pdf"
  || Js.endsWith (Js.or_else (Some (Js.toLowerCase (filename e))) "") ".pdf" = true
  <-> pdf_typed e.
Proof.
  assert (Hname : Js.or_else (Some (Js.toLowerCase (filename e))) ""
                  = Js.toLowerCase (filename e)).
  { unfold Js.or_else, Js.truthy.
    destruct (String.eqb_spec (Js.toLowerCase (filename e)) "") as [->|_];
      reflexivity. }
  rewrite Hname, orb_true_iff, includes_lower_spec, endsWith_lower_spec
    by reflexivity.
  unfold pdf_typed. apply or_iff_compat_r.
  destruct (contentType e) as [ct|]; simpl.
  - unfold Js.truthy. destruct (String.eqb_spec ct "") as [->|_]; simpl.
    + split; [intros H | intros (? & [= <-] & H)];
        now apply ci_contains_empty in H.
    + split; [intros H; now exists ct | now intros (? & [= <-] & H)].
  - split; [intros H | intros (? & [=] & _)].
    now apply ci_contains_empty in H.
Qed.

Lemma size_test_spec (e : AttachmentEntry) :
  (pdf_min <=? default 0 (sizeBytes e)) && (default 0 (sizeBytes e) <=? pdf_max) = true
  <-> mid_sized e.
Proof.
  unfold mid_sized, pdf_min, pdf_max.
  rewrite andb_true_iff, Z.leb_le, Z.leb_le.
  destruct (sizeBytes e) as [n|]; simpl.
  - split; [intros H; exists n; split; [reflexivity | lia]
           | intros (? & [= <-] & H); lia].
  - split; [lia | intros (? & [=] & _)].
Qed.

Lemma large_pdf_entry_spec (e : AttachmentEntry) :
  large_pdf_entry e = true <-> pdf_typed e /\ mid_sized e.
Proof.
  unfold large_pdf_entry. cbv zeta.
  rewrite <- andb_assoc, andb_true_iff, pdf_test_spec, size_test_spec.
  reflexivity.
Qed.

(** [Object.values(value).some(arr => arr.some(test))]: some entry of
    some bucket passes the test. *)
Lemma largePdfDetected_some_entry (value : AttachIndex) :
  largePdfDetected value = true
  <-> exists e, entry_in value e /\ large_pdf_entry e = true.
Proof.
  unfold largePdfDetected, entry_in. rewrite existsb_exists. split.
  - intros ([key arr] & Hin & Harr). simpl in Harr.
    apply existsb_exists in Harr as (e & He & Hlarge).
    exists e. split; [|exact Hlarge].
    exists key, arr. split; [|now apply list_elem_of_In].
    now apply elem_of_map_to_list, list_elem_of_In.
  - intros (e & (key & arr & Hlook & He) & Hlarge).
    exists (key, arr). split.
    + now apply list_elem_of_In, elem_of_map_to_list.
    + simpl. apply existsb_exists. exists e.
      split; [now apply list_elem_of_In | exact Hlarge].
Qed.

End Policy.

(** C2. The restriction flag [largePdfDetected] is set exactly when some
    entry of some bucket has (a declared content type containing [pdf] up
    to case, or a file name ending in [.pdf] up to case) and a declared
    size in bytes between 1,048,576 and 2,097,152, both included. *)
Theorem batch_policy_trigger (value : AttachIndex) :
  largePdfDetected value = true
  <-> exists e : AttachmentEntry,
        entry_in value e
        /\ ((exists ct, contentType e = Some ct /\ ci_contains ct "pdf")
            \/ ci_ends_with (filename e) ".pdf")
        /\ (exists n, sizeBytes e = Some n /\ 1048576 <= n <= 2097152).
Proof.
  rewrite largePdfDetected_some_entry. split.
  - intros (e & Hin & Hlarge). exists e.
    apply large_pdf_entry_spec in Hlarge as [Htype Hsize].
    split; [exact Hin|]. split; [exact Htype | exact Hsize].
  - intros (e & Hin & Htype & Hsize). exists e.
    split; [exact Hin|]. apply large_pdf_entry_spec.
    split; [exact Htype | exact Hsize].
Qed.

(** The vectors of the specification for the policy. *)
Example policy_pdf_mid_size :
  largePdfDetected
    {[ "jane" := [ {| filename := "jane.bin"; contentBase64 := "";
                      contentType := Some "application/pdf";
                      sizeBytes := Some 1500000 |} ] ]} = true.
Proof. vm_compute. reflexivity. Qed.

Example policy_pdf_small :
  largePdfDetected
    {[ "jane" := [ {| filename := "jane.bin"; contentBase64 := "";
                      contentType := Some "application/pdf";
                      sizeBytes := Some 500000 |} ] ]} = false.
Proof. vm_compute. reflexivity. Qed.

Example policy_pdf_by_suffix :
  largePdfDetected
    {[ "jane" := [ {| filename := "Jane.PDF"; contentBase64 := "";
                      contentType := None;
                      sizeBytes := Some 1200000 |} ] ]} = true.
Proof. vm_compute. reflexivity. Qed.

(** C9. An entry with no [sizeBytes] is tested as if its size were 0, so
    it fails the size test whatever its name, type and content; an index
    in which every PDF entry has no declared size does not set the
    restriction flag. *)
Theorem absent_size_never_restricts :
  (forall e : AttachmentEntry,
      sizeBytes e = None ->
      large_pdf_entry e = large_pdf_entry (with_size e (Some 0))
      /\ large_pdf_entry e = false)
  /\ (forall value : AttachIndex,
         (forall e, entry_in value e -> pdf_typed e -> sizeBytes e = None) ->
         largePdfDetected value = false).
Proof.
  split.
  - intros e He. unfold large_pdf_entry, with_size. simpl. rewrite He. simpl.
    split; [reflexivity|]. now rewrite andb_false_r.
  - intros value Hall. apply not_true_is_false. intros Hflag.
    apply largePdfDetected_some_entry in Hflag as (e & Hin & Hlarge).
    apply large_pdf_entry_spec in Hlarge as (Hpdf & n & Hn & _).
    rewrite (Hall e Hin Hpdf) in Hn. discriminate.
Qed.

Lemma absent_size_never_restricts_witness :
  largePdfDetected
    {[ "jane" := [ {| filename := "jane.pdf"; contentBase64 := "JVBERi0=";
                      contentType := Some "application/pdf";
                      sizeBytes := None |} ] ]} = false.
Proof.
  apply (proj2 absent_size_never_restricts).
  intros e (key & arr & Hlook & He) _.
  apply lookup_singleton_Some in Hlook as [_ <-].
  apply list_elem_of_singleton in He as ->. reflexivity.
Defined.

(** ** C1: conservation of the tallies *)

Section Reconciliation.

Variable normalizeNameKey : string -> string.
Variable table : option ParsedCsv.
Variable columns : option CsvMapping.

Lemma entry_count_from (entries : list (string * list AttachmentEntry)) (a : Z) :
  foldl (fun acc kv => acc + Z.of_nat (length kv.2)) a entries
  = a + entry_count entries.
Proof.
  unfold entry_count. revert a.
  induction entries as [|kv entries IH]; intros a; simpl; [lia|].
  rewrite (IH (a + _)), (IH (0 + _)). lia.
Qed.

(** Each turn of the loop moves the whole bucket either to [matched] or
    to the unmatched names. *)
Lemma computed_body_balance (acc : tally) (kv : string * list AttachmentEntry) :
  let r := computed_body normalizeNameKey table columns acc kv in
  r.1.1 + Z.of_nat (length r.1.2)
  = acc.1.1 + Z.of_nat (length acc.1.2) + Z.of_nat (length kv.2).
Proof.
  destruct acc as [[m un] pairs], kv as [key arr]. unfold computed_body.
  destruct (decide (key ∈ rowsNameSet normalizeNameKey table columns)); simpl.
  - lia.
  - rewrite length_app, length_map. lia.
Qed.

Lemma computed_loop_balance (entries : list (string * list AttachmentEntry))
    (acc : tally) :
  let r := foldl (computed_body normalizeNameKey table columns) acc entries in
  r.1.1 + Z.of_nat (length r.1.2)
  = acc.1.1 + Z.of_nat (length acc.1.2) + entry_count entries.
Proof.
  revert acc. induction entries as [|kv entries IH]; intros acc.
  - unfold entry_count. simpl. lia.
  - cbn [foldl]. cbv zeta in IH |- *. rewrite IH.
    pose proof (computed_body_balance acc kv) as Hstep. cbv zeta in Hstep.
    rewrite Hstep. unfold entry_count at 2. cbn [foldl].
    rewrite entry_count_from. lia.
Qed.

(** The matched tally only grows, by whole buckets. *)
Lemma computed_loop_matched_bounds (entries : list (string * list AttachmentEntry))
    (acc : tally) :
  let r := foldl (computed_body normalizeNameKey table columns) acc entries in
  acc.1.1 <= r.1.1.
Proof.
  revert acc. induction entries as [|kv entries IH]; intros acc; [simpl; lia|].
  cbn [foldl]. cbv zeta in IH |- *. etransitivity; [|apply IH].
  destruct acc as [[m un] pairs], kv as [key arr]. unfold computed_body.
  destruct (decide (key ∈ rowsNameSet normalizeNameKey table columns)); simpl; lia.
Qed.

(** C1. For every attachment index, table and column mapping, the
    result of [computed] satisfies [matched + unmatched = files], where
    [files] is the number of entries of the index, and [unmatched], which
    is computed as [files - matched], is the number of file names put in
    [unmatchedFiles]; [matched] lies between 0 and [files]. *)
Theorem matched_unmatched_conservation (value : AttachIndex) :
  let c := computed normalizeNameKey table columns value in
  files c = entry_count (map_to_list value)
  /\ matched c + unmatched c = files c
  /\ unmatched c = files c - matched c
  /\ unmatched c = Z.of_nat (length (unmatchedFiles c))
  /\ 0 <= matched c <= files c.
Proof.
  unfold computed.
  pose proof (computed_loop_balance (map_to_list value) (0, [], [])) as Hbal.
  pose proof (computed_loop_matched_bounds (map_to_list value) (0, [], [])) as Hm.
  cbv zeta in Hbal, Hm |- *.
  destruct (foldl (computed_body normalizeNameKey table columns) (0, [], [])
                  (map_to_list value)) as [[m un] pairs].
  simpl in Hbal, Hm |- *. fold (entry_count (map_to_list value)).
  repeat split; lia.
Qed.

End Reconciliation.

(** ** C7: partial success of an upload *)

Section Ingest.

Variable normalizeNameKey : string -> string.
Variable fileToBase64 : File -> option string.

Local Abbreviation upload_body := (upload_body normalizeNameKey fileToBase64).
Local Abbreviation action_body := (action_body normalizeNameKey fileToBase64).
Local Abbreviation decoded := (decoded normalizeNameKey fileToBase64).
Local Abbreviation failures := (failures fileToBase64).
Local Abbreviation file_key := (file_key normalizeNameKey).
Local Abbreviation filed := (filed normalizeNameKey fileToBase64).
Local Abbreviation refused := (refused normalizeNameKey fileToBase64).

Lemma decoded_cons (file : File) (fl : list File) :
  decoded (file :: fl)
  = match fileToBase64 file with
    | Some content => (file_key file, entry_of file content) :: decoded fl
    | None => decoded fl
    end.
Proof. unfold decoded. simpl. destruct (fileToBase64 file); reflexivity. Qed.

Lemma failures_cons (file : File) (fl : list File) :
  failures (file :: fl)
  = match fileToBase64 file with
    | Some _ => failures fl
    | None => failed_label file :: failures fl
    end.
Proof.
  unfold failures. destruct (fileToBase64 file) as [content|] eqn:Hread.
  - rewrite filter_cons_False; [reflexivity | congruence].
  - rewrite filter_cons_True; [reflexivity | exact Hread].
Qed.

Lemma filed_cons (value : AttachIndex) (file : File) (fl : list File) :
  filed value (file :: fl)
  = match fileToBase64 file with
    | Some content =>
        if blocked value (file_key file) then filed value fl
        else (file_key file, entry_of file content) :: filed value fl
    | None => filed value fl
    end.
Proof.
  unfold filed. simpl.
  destruct (blocked value (file_key file)), (fileToBase64 file); reflexivity.
Qed.

Lemma refused_cons (value : AttachIndex) (file : File) (fl : list File) :
  refused value (file :: fl)
  = match fileToBase64 file with
    | Some _ =>
        if blocked value (file_key file) then failed_label file :: refused value fl
        else refused value fl
    | None => failed_label file :: refused value fl
    end.
Proof.
  unfold refused. destruct (fileToBase64 file) as [content|] eqn:Hread.
  - destruct (blocked value (file_key file)) eqn:Hb.
    + rewrite filter_cons_True; [reflexivity | now right].
    + rewrite filter_cons_False; [reflexivity|].
      intros [H|H]; [congruence | rewrite Hb in H; discriminate].
  - rewrite filter_cons_True; [reflexivity | now left].
Qed.

(** Filing an entry under a key that is not blocked blocks and unblocks
    nothing. *)
Lemma blocked_append_item (value : AttachIndex) (item : string * AttachmentEntry)
    (k : string) :
  blocked value item.1 = false ->
  blocked (append_item value item) k = blocked value k.
Proof.
  intros Hfree. unfold append_item. destruct (decide (k = item.1)) as [->|Hne].
  - rewrite Hfree. unfold blocked. rewrite lookup_insert_eq.
    rewrite bool_decide_eq_false_2 by discriminate. apply andb_false_r.
  - unfold blocked. rewrite lookup_insert_ne by congruence. reflexivity.
Qed.

Lemma filed_ext (v v' : AttachIndex) (fl : list File) :
  (forall k, blocked v k = blocked v' k) -> filed v fl = filed v' fl.
Proof.
  intros Hb. induction fl as [|file fl IH]; [reflexivity|].
  now rewrite !filed_cons, Hb, IH.
Qed.

Lemma refused_ext (v v' : AttachIndex) (fl : list File) :
  (forall k, blocked v k = blocked v' k) -> refused v fl = refused v' fl.
Proof.
  intros Hb. induction fl as [|file fl IH]; [reflexivity|].
  now rewrite !refused_cons, Hb, IH.
Qed.

(** One turn of the loop of [onUpload] on a file that was read. *)
Lemma upload_body_read (idx : AttachIndex) (failed : list string) (file : File)
    (content : string) :
  fileToBase64 file = Some content ->
  upload_body (idx, failed) file
  = if blocked idx (file_key file)
    then (idx, (failed ++ [failed_label file])%list)
    else (append_item idx (file_key file, entry_of file content), failed).
Proof.
  intros Hread. unfold upload_body, blocked, append_item. rewrite Hread.
  cbn [fst snd]. fold (file_key file).
  destruct (idx !! file_key file) as [arr|] eqn:Hlook.
  - rewrite bool_decide_eq_false_2 by discriminate. now rewrite andb_false_r.
  - rewrite bool_decide_eq_true_2 by reflexivity. rewrite andb_true_r.
    now destruct (inherited (file_key file)).
Qed.

(** The loop of [onUpload] from any intermediate state. *)
Lemma upload_loop (fl : list File) (idx : AttachIndex) (failed : list string) :
  foldl upload_body (idx, failed) fl
  = (foldl append_item idx (filed idx fl), (failed ++ refused idx fl)%list).
Proof.
  revert idx failed. induction fl as [|file fl IH]; intros idx failed.
  - simpl. now rewrite app_nil_r.
  - cbn [foldl]. rewrite filed_cons, refused_cons.
    destruct (fileToBase64 file) as [content|] eqn:Hread.
    + rewrite (upload_body_read idx failed file content Hread).
      destruct (blocked idx (file_key file)) eqn:Hb.
      * rewrite IH, <- app_assoc. reflexivity.
      * rewrite IH. cbn [foldl].
        set (item := (file_key file, entry_of file content)).
        rewrite (filed_ext (append_item idx item) idx),
                (refused_ext (append_item idx item) idx);
          [reflexivity | |]; intros k; now apply blocked_append_item.
    + unfold upload_body at 2. rewrite Hread, IH, <- app_assoc. reflexivity.
Qed.

(** The loop of [uploadAttachmentsAction] from any intermediate state. *)
Lemma action_loop (fl : list File)
    (items : list (string * AttachmentEntry)) (failed : list string) :
  foldl action_body (items, failed) fl
  = ((items ++ decoded fl)%list, (failed ++ failures fl)%list).
Proof.
  revert items failed. induction fl as [|file fl IH]; intros items failed.
  - simpl. now rewrite !app_nil_r.
  - cbn [foldl]. rewrite decoded_cons, failures_cons.
    unfold action_body at 2. destruct (fileToBase64 file) as [content|].
    + rewrite IH, <- app_assoc. reflexivity.
    + rewrite IH, <- app_assoc. reflexivity.
Qed.

(** The buckets after the appends. *)
Lemma append_items_lookup (items : list (string * AttachmentEntry))
    (idx : AttachIndex) (k : string) :
  foldl append_item idx items !! k = committed idx items k.
Proof.
  revert idx. induction items as [|[k' e] items IH]; intros idx; [reflexivity|].
  cbn [foldl]. rewrite IH. unfold committed, append_item. cbn [bucket_of fst snd].
  destruct (decide (k' = k)) as [->|Hne].
  - rewrite lookup_insert_eq. simpl.
    destruct (bucket_of k items); [reflexivity|].
    now rewrite <- app_assoc.
  - now rewrite lookup_insert_ne.
Qed.

Lemma elem_of_bucket_of (k : string) (e : AttachmentEntry)
    (items : list (string * AttachmentEntry)) :
  e ∈ bucket_of k items <-> (k, e) ∈ items.
Proof.
  induction items as [|[k' e'] items IH]; simpl.
  - split; intros H; inversion H.
  - destruct (decide (k' = k)) as [->|Hne].
    + rewrite !elem_of_cons, IH. split; intros [H|H]; auto; left; congruence.
    + rewrite elem_of_cons, IH. split; [auto | intros [H|H]; congruence].
Qed.

(** What [onUpload] files is part of what was read. *)
Lemma filed_decoded (value : AttachIndex) (fl : list File)
    (item : string * AttachmentEntry) :
  item ∈ filed value fl -> item ∈ decoded fl.
Proof.
  induction fl as [|file fl IH]; [intros H; inversion H|].
  rewrite filed_cons, decoded_cons.
  destruct (fileToBase64 file) as [content|]; [|exact IH].
  destruct (blocked value (file_key file)).
  - intros H. apply elem_of_cons. right. now apply IH.
  - rewrite !elem_of_cons. intros [H|H]; [now left | right; now apply IH].
Qed.

(** Every file is filed or refused. *)
Lemma filed_refused_length (value : AttachIndex) (fl : list File) :
  (length (filed value fl) + length (refused value fl))%nat = length fl.
Proof.
  induction fl as [|file fl IH]; [reflexivity|].
  rewrite filed_cons, refused_cons.
  destruct (fileToBase64 file) as [content|];
    [destruct (blocked value (file_key file))|]; cbn [length]; lia.
Qed.

Lemma refused_nil (value : AttachIndex) (fl : list File) :
  refused value fl = []
  <-> Forall (fun file => is_Some (fileToBase64 file)
                          /\ blocked value (file_key file) = false) fl.
Proof.
  induction fl as [|file fl IH].
  - split; [constructor | reflexivity].
  - rewrite refused_cons, Forall_cons, <- IH.
    destruct (fileToBase64 file) as [content|] eqn:Hread.
    + destruct (blocked value (file_key file)).
      * split; [discriminate | intros [[_ [=]] _]].
      * split; [intros H; repeat split; eauto | now intros [_ H]].
    + split; [discriminate | intros [[[? [=]] _] _]].
Qed.

End Ingest.

(** C7. The claim fails of [onUpload] on a file whose key is a property
    name of [Object.prototype].  The file [constructor.pdf] can be read;
    the upload action returns its entry under the key [constructor] with
    an empty failed list; the component, from an empty index, commits
    nothing and reports the file as failed. *)
Theorem inherited_key_reported_failed :
  sample_read constructor_pdf = Some "AAAA"
  /\ uploadAttachmentsAction sample_normalize sample_read [FormFile constructor_pdf]
     = UploadOk [("constructor", constructor_entry)] []
  /\ onUpload sample_normalize sample_read ∅ (Some [constructor_pdf])
     = Some {| changed := ∅; failedNames := ["constructor.pdf"];
               uploadError := Some "Failed: constructor.pdf" |}.
Proof. repeat split. Qed.

(** ** The table component *)

Section Table.

Lemma or_else_self (s : string) : Js.or_else (Some s) "" = s.
Proof.
  unfold Js.or_else, Js.truthy.
  destruct (String.eqb_spec s "") as [->|_]; reflexivity.
Qed.

(** [headers.find(f) || headers[0] || ""] is a header when there is one. *)
Lemma guess_in_headers (f : string -> bool) (hs : list string) :
  hs <> [] -> Js.or_else (find f hs) (Js.or_else (head hs) "") ∈ hs.
Proof.
  intros Hne. destruct hs as [|h0 rest]; [congruence|].
  assert (Hfallback : Js.or_else (head (h0 :: rest)) "" ∈ h0 :: rest).
  { cbn [head]. rewrite or_else_self. apply list_elem_of_here. }
  destruct (find f (h0 :: rest)) as [h|] eqn:Hfind; [|exact Hfallback].
  cbn [Js.or_else]. destruct (Js.truthy h); [|exact Hfallback].
  apply find_some in Hfind as [Hin _]. now apply list_elem_of_In.
Qed.

Lemma or_else_kept (prior : option string) (guess : string) (hs : list string) :
  guess ∈ hs -> inferred_or_kept hs prior (Js.or_else prior guess).
Proof.
  intros Hguess. unfold inferred_or_kept, Js.or_else, Js.truthy.
  destruct prior as [v|]; [|now left].
  destruct (String.eqb_spec v "") as [->|Hv]; simpl; [now left | now right].
Qed.

Lemma recipient_missing_spec (st : State) :
  recipient_missing st = true <-> recipient_blank st.
Proof.
  unfold recipient_missing, recipient_blank, Js.truthy.
  destruct (manualRow st !! recipientKey st) as [v|].
  - rewrite negb_involutive, String.eqb_eq. split.
    + now intros Hv ? [= <-].
    + intros Hv. now apply Hv.
  - split; [intros _ ? [=] | reflexivity].
Qed.

Lemma blank_row_lookup (hs : list string) (h : string) :
  h ∈ hs -> h <> "__proto__" -> blank_row hs !! h = Some "".
Proof.
  unfold blank_row. generalize (∅ : Row).
  induction hs as [|x hs IH] using rev_ind; intros r Hin Hh; [inversion Hin|].
  rewrite foldl_app. cbn [foldl].
  destruct (decide (x = h)) as [->|Hne].
  - destruct (String.eqb_spec h "__proto__") as [Heq|_]; [congruence|].
    apply lookup_insert_eq.
  - assert (Hin' : h ∈ hs).
    { apply elem_of_app in Hin as [Hin|Hin]; [exact Hin|].
      apply list_elem_of_singleton in Hin. congruence. }
    destruct (String.eqb x "__proto__"); [now apply IH|].
    rewrite lookup_insert_ne by exact Hne. now apply IH.
Qed.

(** Whatever the state, a table that an action leaves behind is the one
    that was there or is counted. *)
Lemma act_counted (st : State) (a : Action) (c : ParsedCsv) :
  csv (next (act st a)) = Some c -> csv st = Some c \/ counted c.
Proof.
  destruct a as [fname res|key value| |header value| | |i|]; cbn [act].
  - unfold handleFile. destruct res as [data fields|message]; [|now left].
    destruct (Z.of_nat (length (default [] fields)) =? 0); [now left|].
    intros [= <-]. right. reflexivity.
  - unfold onChangeSelect. destruct (csv st) eqn:Hcsv; cbn; rewrite ?Hcsv; now left.
  - unfold initializeManualEntry. destruct (csv st) eqn:Hcsv; cbn.
    + rewrite Hcsv. now left.
    + intros [= <-]. right. reflexivity.
  - now left.
  - unfold addManualRow. destruct (recipient_missing st); [now left|].
    intros [= <-]. right. reflexivity.
  - now left.
  - unfold deleteRow. destruct (csv st) eqn:Hcsv; cbn.
    + intros [= <-]. right. reflexivity.
    + rewrite Hcsv. now left.
  - discriminate.
Qed.

Lemma reachable_counted (m0 : option CsvMapping) (st : State) :
  reachable m0 st -> table_counted st.
Proof.
  induction 1 as [|st a _ IH]; intros c Hc; [discriminate|].
  destruct (act_counted st a c Hc) as [Hold|Hnew]; [now apply IH | exact Hnew].
Qed.

(** The tables handed to [onParsed] are the table of the next state. *)
Lemma act_emits_next (st : State) (a : Action) (c : ParsedCsv) (m : CsvMapping) :
  (c, m) ∈ onParsed (act st a) -> csv (next (act st a)) = Some c.
Proof.
  destruct a as [fname res|key value| |header value| | |i|]; cbn [act].
  - unfold handleFile. destruct res as [data fields|message];
      [|intros H; inversion H].
    destruct (Z.of_nat (length (default [] fields)) =? 0); cbn;
      [intros H; inversion H|].
    now intros [= <- _]%list_elem_of_singleton.
  - unfold onChangeSelect. destruct (csv st) eqn:Hcsv; cbn;
      [|intros H; inversion H].
    rewrite Hcsv. now intros [= <- _]%list_elem_of_singleton.
  - intros H; inversion H.
  - intros H; inversion H.
  - unfold addManualRow. destruct (recipient_missing st); cbn;
      [intros H; inversion H|].
    now intros [= <- _]%list_elem_of_singleton.
  - intros H; inversion H.
  - unfold deleteRow. destruct (csv st) eqn:Hcsv; cbn; [|intros H; inversion H].
    destruct (mapping st); [|intros H; inversion H].
    now intros [= <- _]%list_elem_of_singleton.
  - intros H; inversion H.
Qed.

Lemma truthy_nonempty (s : string) : s <> "" -> Js.truthy s = true.
Proof.
  intros Hs. unfold Js.truthy. now destruct (String.eqb_spec s "").
Qed.

(** A valid mapping stays valid through every action that is not a load
    and that selects headers only. *)
Lemma act_keeps_valid (st : State) (a : Action) (c : ParsedCsv) (m : CsvMapping) :
  csv st = Some c -> mapping st = Some m -> valid_mapping c m ->
  picks_header c a ->
  forall c' m', (c', m') ∈ onParsed (act st a) -> valid_mapping c' m'.
Proof.
  intros Hcsv Hmap [Hr Hn] Hpick c' m'.
  destruct a as [fname res|key value| |header value| | |i|]; cbn [act].
  - destruct Hpick.
  - unfold onChangeSelect. rewrite Hcsv, Hmap. cbn.
    intros [= -> ->]%list_elem_of_singleton.
    destruct key; cbn in Hpick |- *.
    + destruct Hpick as [Hin Hne]. rewrite (truthy_nonempty _ Hne).
      split; [now exists value | exact Hn].
    + destruct Hpick as [Hin Hne]. rewrite (truthy_nonempty _ Hne).
      split; [exact Hr | now exists value].
    + split; [exact Hr | exact Hn].
  - intros H; inversion H.
  - intros H; inversion H.
  - unfold addManualRow. rewrite Hcsv, Hmap.
    destruct (recipient_missing st); cbn; [intros H; inversion H|].
    intros [= -> ->]%list_elem_of_singleton. split; [exact Hr | exact Hn].
  - intros H; inversion H.
  - unfold deleteRow. rewrite Hcsv, Hmap. cbn.
    intros [= -> ->]%list_elem_of_singleton. split; [exact Hr | exact Hn].
  - intros H; inversion H.
Qed.

End Table.

(** ** C5: a load without headers *)

(** C5. When the parsed header list of a load is empty, [handleFile]
    reports the missing headers as the error, makes no call to
    [onParsed], and leaves the table (headers, rows and row count), the
    mapping and the manual-entry state as they were. *)
Theorem no_headers_load_rejected
    (st : State) (fname : string) (data : list (option Row))
    (fields : option (list string)) :
  default [] fields = [] ->
  let r := handleFile st fname (Complete data fields) in
  error (next r) = Some no_headers_message
  /\ onParsed r = []
  /\ csv (next r) = csv st
  /\ mapping (next r) = mapping st
  /\ manualRow (next r) = manualRow st
  /\ showManualEntry (next r) = showManualEntry st.
Proof.
  intros Hfields. unfold handleFile. rewrite Hfields. cbn. repeat split.
Qed.

Lemma no_headers_load_rejected_witness :
  let r := handleFile sample_state "empty.csv" (Complete [] None) in
  error (next r) = Some no_headers_message
  /\ onParsed r = []
  /\ csv (next r) = Some sample_table
  /\ mapping (next r) = Some sample_mapping
  /\ manualRow (next r) = ∅
  /\ showManualEntry (next r) = false.
Proof.
  exact (no_headers_load_rejected sample_state "empty.csv" [] None eq_refl).
Defined.

(** ** C6: appending a manual row *)

(** C6. The claim fails of [addManualRow] after a table was loaded while
    a manual row was being typed.  In [reloaded_while_typing] the table
    has the headers [Mail] and [Person], and the manual row still has the
    cells [Email] and [Name] of the first table; the recipient column is
    still [Email], and its cell holds an address.  The append goes
    through: one record is added, and its columns are [Email] and [Name],
    not the headers of the table. *)
Theorem append_after_reload_keeps_old_columns :
  let r := addManualRow reloaded_while_typing in
  current_headers reloaded_while_typing = ["Mail"; "Person"]
  /\ recipientKey reloaded_while_typing = "Email"
  /\ manualRow reloaded_while_typing = {[ "Email" := "ann@x.com"; "Name" := "" ]}
  /\ csv (next r)
     = Some {| headers := ["Mail"; "Person"];
               rows := [ {[ "Email" := "ann@x.com"; "Name" := "" ]} ];
               rowCount := 1 |}
  /\ error (next r) = None
  /\ ~ has_header_set ["Mail"; "Person"] {[ "Email" := "ann@x.com"; "Name" := "" ]}.
Proof.
  cbv zeta. split; [reflexivity|]. split; [reflexivity|].
  split; [now vm_compute|]. split; [now vm_compute|]. split; [reflexivity|].
  intros Hset. destruct (proj2 (Hset "Mail")) as [v Hv].
  - apply list_elem_of_here.
  - vm_compute in Hv. discriminate Hv.
Qed.

(** ** C10: the row count *)

(** C10. [rowCount] is the number of rows in every table built by a load,
    by the initialization of manual entry, by a manual append and by a
    row deletion: whatever the state, the table an action leaves behind is
    the one that was there or satisfies [rowCount = rows.length]; hence
    the table of every state reached from the first render, and every
    table handed to [onParsed] from such a state, satisfies it. *)
Theorem row_count_is_length :
  (forall st fname res c,
      csv (next (handleFile st fname res)) = Some c ->
      csv st = Some c \/ counted c)
  /\ (forall st c,
         csv (next (initializeManualEntry st)) = Some c ->
         csv st = Some c \/ counted c)
  /\ (forall st c,
         csv (next (addManualRow st)) = Some c ->
         csv st = Some c \/ counted c)
  /\ (forall st i c,
         csv (next (deleteRow st i)) = Some c -> counted c)
  /\ (forall m0 st, reachable m0 st -> table_counted st)
  /\ (forall m0 st a c m,
         reachable m0 st -> (c, m) ∈ onParsed (act st a) -> counted c).
Proof.
  repeat split.
  - intros st fname res. apply (act_counted st (ALoad fname res)).
  - intros st. apply (act_counted st AManual).
  - intros st. apply (act_counted st AAdd).
  - intros st i c. unfold deleteRow. destruct (csv st) eqn:Hcsv; cbn.
    + now intros [= <-].
    + rewrite Hcsv. discriminate.
  - apply reachable_counted.
  - intros m0 st a c m Hreach Hin.
    apply (reachable_counted m0 (next (act st a))).
    + now constructor.
    + exact (act_emits_next st a c m Hin).
Qed.

Lemma row_count_is_length_witness :
  table_counted
    (next (act (next (act (next (act (next (act (initial None) AManual))
                                     (AEdit "email" "a@x.com")))
                          AAdd))
               (ADelete 0))).
Proof.
  apply (proj1 (proj2 (proj2 (proj2 (proj2 row_count_is_length)))) None).
  repeat constructor.
Defined.

(** ** C4: the mapping is not checked against the headers *)

(** C4, as stated, fails: after a table with the headers [Email], [Name],
    loading a table with the headers [Mail], [Person] is not rejected
    and hands [onParsed] the new table with the old mapping, whose
    recipient and name columns are not headers of the new table. So it is
    not true that every mapping handed over from a reachable state names
    current headers. *)
Lemma stale_mapping_after_reload :
  (let st := next (act (initial None) first_load) in
   error (next (act st second_load)) = None
   /\ onParsed (act st second_load)
      = [({| headers := ["Mail"; "Person"]; rows := []; rowCount := 0 |},
          {| recipient := Some "Email"; name := Some "Name"; subject := None |})])
  /\ ~ (forall m0 st a c m,
           reachable m0 st -> (c, m) ∈ onParsed (act st a) -> valid_mapping c m).
Proof.
  split; [split; reflexivity|].
  intros Hvalid.
  destruct (Hvalid None (next (act (initial None) first_load)) second_load
              {| headers := ["Mail"; "Person"]; rows := []; rowCount := 0 |}
              {| recipient := Some "Email"; name := Some "Name"; subject := None |})
    as [(r & Hr & Hin) _].
  - repeat constructor.
  - apply list_elem_of_here.
  - injection Hr as <-. cbn in Hin.
    repeat (apply elem_of_cons in Hin as [Hin|Hin]; [discriminate Hin|]).
    inversion Hin.
Qed.

(** C4, amended. The component has no rejection of a mapping. A load
    with a non-empty header list succeeds and hands [onParsed] the new
    table with a mapping in which the recipient column, and likewise the
    name column, is either a header of the new table or the non-empty
    value that the previous mapping had there, carried over as it was;
    with no previous mapping both are headers of the new table.
    [onChangeSelect] on an existing table stores the value it is given
    ([null] for the empty string) in the edited field, keeps the other two
    fields and the error, and hands the result to [onParsed]. Apart from
    loads, an action that selects only non-empty headers of the table for
    the recipient and the name hands over a mapping whose recipient and
    name columns are headers whenever the current mapping is such. *)
Theorem mapping_inferred_or_carried_over (st : State) :
  (forall fname data hs,
      hs <> [] ->
      let r := handleFile st fname (Complete data (Some hs)) in
      exists c m,
        onParsed r = [(c, m)]
        /\ csv (next r) = Some c /\ mapping (next r) = Some m
        /\ error (next r) = None
        /\ headers c = hs
        /\ (exists rc, recipient m = Some rc
                       /\ inferred_or_kept hs (mapping st ≫= recipient) rc)
        /\ (exists n, name m = Some n
                      /\ inferred_or_kept hs (mapping st ≫= name) n)
        /\ (mapping st = None -> valid_mapping c m))
  /\ (forall key value c,
         csv st = Some c ->
         let r := onChangeSelect st key value in
         let prior := default empty_mapping (mapping st) in
         let stored := if Js.truthy value then Some value else None in
         exists m,
           onParsed r = [(c, m)]
           /\ csv (next r) = Some c /\ mapping (next r) = Some m
           /\ error (next r) = error st
           /\ match key with
              | KRecipient => recipient m = stored /\ name m = name prior
                              /\ subject m = subject prior
              | KName => name m = stored /\ recipient m = recipient prior
                         /\ subject m = subject prior
              | KSubject => subject m = stored /\ recipient m = recipient prior
                            /\ name m = name prior
              end)
  /\ (forall c m a,
         csv st = Some c -> mapping st = Some m -> valid_mapping c m ->
         picks_header c a ->
         forall c' m', (c', m') ∈ onParsed (act st a) -> valid_mapping c' m').
Proof.
  split; [|split; [|intros c m a; apply act_keeps_valid]].
  - intros fname data hs Hne. unfold handleFile.
    change (default [] (Some hs)) with hs.
    assert (Hlen : (Z.of_nat (length hs) =? 0) = false).
    { destruct hs; [congruence | reflexivity]. }
    rewrite Hlen. cbv zeta. eexists _, _.
    split; [reflexivity|]. cbn.
    pose proof (guess_in_headers (test_alternatives recipient_alternatives) hs Hne)
      as Hrcp.
    pose proof (guess_in_headers test_name hs Hne) as Hname.
    do 4 (split; [reflexivity|]). split; [|split].
    + eexists. split; [reflexivity|]. now apply or_else_kept.
    + eexists. split; [reflexivity|]. now apply or_else_kept.
    + intros Hnone. rewrite Hnone.
      split; (eexists; split; [reflexivity|]); [exact Hrcp | exact Hname].
  - intros key value c Hcsv. unfold onChangeSelect. rewrite Hcsv. cbv zeta.
    eexists. split; [reflexivity|]. cbn. rewrite Hcsv.
    destruct key; repeat split.
Qed.

Lemma mapping_inferred_or_carried_over_witness :
  exists c m,
    onParsed (handleFile (initial None) "people.csv"
                (Complete [] (Some ["Email"; "Name"]))) = [(c, m)]
    /\ valid_mapping c m.
Proof.
  destruct (proj1 (mapping_inferred_or_carried_over (initial None))
              "people.csv" [] ["Email"; "Name"])
    as (c & m & Hemit & _ & _ & _ & _ & _ & _ & Hvalid);
    [discriminate|].
  exists c, m. split; [exact Hemit | now apply Hvalid].
Defined.

(** ** A run of the two components on sample data *)


(** The end-to-end scenario of the specification, with one unreadable
    file added to the upload. *)
Example end_to_end :
  exists u,
    onUpload sample_normalize sample_read ∅
      (Some [jane_pdf; broken_bin; carol_png]) = Some u
    /\ failedNames u = ["broken.bin"]
    /\ changed u !! "jane doe" = Some [jane_entry]
    /\ changed u !! "carol" = Some [carol_entry]
    /\ matched (computed sample_normalize (Some sample_table)
                  (Some sample_mapping) (changed u)) = 1
    /\ unmatched (computed sample_normalize (Some sample_table)
                    (Some sample_mapping) (changed u)) = 1
    /\ unmatchedFiles (computed sample_normalize (Some sample_table)
                         (Some sample_mapping) (changed u)) = ["carol.png"]
    /\ matchedPairs (computed sample_normalize (Some sample_table)
                       (Some sample_mapping) (changed u))
       = [("Jane Doe", ["jane doe.pdf"])]
    /\ largePdfDetected (changed u) = true.
Proof.
  eexists. split; [reflexivity|]. cbn [failedNames changed].
  repeat split; vm_compute; reflexivity.
Qed.

(** * Further properties of the table component *)

Section TableMore.

Lemma test_prefix_sep_name_spec (pre l : string) :
  test_prefix_sep_name pre l = true
  <-> exists rest, l = pre ++ rest
        /\ (rest = "name" \/ exists c, is_separator c = true /\ rest = String c "name").
Proof.
  revert l. induction pre as [|p pre IH]; intros l.
  - cbn [test_prefix_sep_name]. rewrite orb_true_iff, String.eqb_eq. split.
    + intros [->|H]; [exists "name"; split; [reflexivity | now left]|].
      destruct l as [|c r]; [discriminate|].
      apply andb_true_iff in H as [Hc Hr]. apply String.eqb_eq in Hr as ->.
      exists (String c "name"). split; [reflexivity|]. right. now exists c.
    + intros (rest & -> & [->|(c & Hc & ->)]); [now left|].
      right. change ("" ++ String c "name") with (String c "name").
      cbv iota. now rewrite Hc, String.eqb_refl.
  - destruct l as [|c l]; cbn [test_prefix_sep_name].
    + split; [discriminate | intros (rest & H & _); discriminate].
    + rewrite andb_true_iff, IH, Ascii.eqb_eq. split.
      * intros [-> (rest & -> & Hrest)]. now exists rest.
      * intros (rest & [= -> ->] & Hrest). split; [reflexivity | now exists rest].
Qed.

Lemma test_name_spec (h : string) : test_name h = true <-> name_like h.
Proof.
  unfold test_name, name_like. cbv zeta.
  rewrite !orb_true_iff, String.eqb_eq, !test_prefix_sep_name_spec.
  assert (Hsep : forall rest : string,
             (rest = "name" \/ exists c, is_separator c = true /\ rest = String c "name")
             <-> exists sep : string,
                   (sep = "" \/ exists c, is_separator c = true /\ sep = String c "")
                   /\ rest = sep ++ "name").
  { intros rest. split.
    - intros [->|(c & Hc & ->)].
      + exists "". split; [now left | reflexivity].
      + exists (String c ""). split; [right; now exists c | reflexivity].
    - intros (sep & [->|(c & Hc & ->)] & ->).
      + now left.
      + right. now exists c. }
  split.
  - intros [[H|(rest & Hl & Hrest)]|(rest & Hl & Hrest)].
    + now left.
    + right. apply Hsep in Hrest as (sep & Hs & ->).
      exists "full", sep. split; [now left|]. split; [exact Hs | exact Hl].
    + right. apply Hsep in Hrest as (sep & Hs & ->).
      exists "first", sep. split; [now right|]. split; [exact Hs | exact Hl].
  - intros [H|(pre & sep & [->| ->] & Hs & Hl)].
    + left. now left.
    + left. right. exists (sep ++ "name"). split; [exact Hl|].
      apply Hsep. now exists sep.
    + right. exists (sep ++ "name"). split; [exact Hl|].
      apply Hsep. now exists sep.
Qed.

Lemma guessSubject_in_headers (hs : list string) (h : string) :
  guessSubject hs = Some h -> h ∈ hs.
Proof.
  unfold guessSubject.
  destruct (find _ hs) as [x|] eqn:Hfind; [|discriminate].
  destruct (Js.truthy x); [|discriminate]. intros [= <-].
  apply find_some in Hfind as [Hin _]. now apply list_elem_of_In.
Qed.

End TableMore.

(** X1. On a non-empty header list each inferred column is one of the
    headers: [guessRecipient] and [guessName] always, [guessSubject]
    whenever it is not [null]. On the empty list they are [""], [""] and
    [null]. *)
Theorem guesses_are_headers (hs : list string) :
  (hs <> [] ->
   guessRecipient hs ∈ hs /\ guessName hs ∈ hs)
  /\ (forall h, guessSubject hs = Some h -> h ∈ hs)
  /\ (hs = [] ->
      guessRecipient hs = "" /\ guessName hs = "" /\ guessSubject hs = None).
Proof.
  split; [|split].
  - intros Hne. split; now apply guess_in_headers.
  - apply guessSubject_in_headers.
  - intros ->. repeat split.
Qed.

Lemma guesses_are_headers_witness :
  guessRecipient ["Name"; "Phone"] ∈ ["Name"; "Phone"]
  /\ guessName ["Name"; "Phone"] ∈ ["Name"; "Phone"].
Proof. apply (proj1 (guesses_are_headers ["Name"; "Phone"])). discriminate. Defined.

(** X2. On headers made of ASCII characters, [guessName] returns the
    first header that, up to case, is [name] or is [full] or [first], at
    most one separator ([_], [-] or a white space) and [name]; when no
    header is such it returns the first header. *)
Theorem guessName_first_name_like (h0 : string) (rest : list string) :
  let hs := h0 :: rest in
  Forall (fun h => ascii_only h = true) hs ->
  (forall h, first_such name_like hs h -> guessName hs = h)
  /\ (Forall (fun x => ~ name_like x) hs -> guessName hs = h0).
Proof.
  intros hs _. split.
  - intros h Hh. unfold guessName.
    apply (first_such_iff _ _ hs h test_name_spec) in Hh.
    pose proof Hh as (_ & _ & _ & Hx & _).
    apply find_first_such in Hh. rewrite Hh. cbn [Js.or_else].
    assert (Htruthy : Js.truthy h = true).
    { destruct h; [discriminate Hx | reflexivity]. }
    now rewrite Htruthy.
  - intros Hnone. unfold guessName.
    assert (Hfind : find test_name hs = None).
    { apply find_none_all. eapply Forall_impl; [exact Hnone|].
      intros x Hx Hc. apply Hx. now apply test_name_spec. }
    rewrite Hfind. cbn [Js.or_else head hs]. apply or_else_self.
Qed.

Lemma guessName_first_name_like_witness :
  guessName ["Email"; "FIRST-NAME"; "name"] = "FIRST-NAME".
Proof.
  apply (proj1 (guessName_first_name_like "Email" ["FIRST-NAME"; "name"]
                  ltac:(repeat constructor))).
  exists ["Email"], ["name"]. split; [reflexivity|]. split.
  - right. exists "first", (String "-" ""). repeat split; [now right|].
    right. now exists "-"%char.
  - repeat constructor. intros Hc. apply test_name_spec in Hc. discriminate Hc.
Defined.

Section TableOperations.

Lemma or_else_nonempty (o : option string) (d : string) :
  d <> "" -> Js.or_else o d <> "".
Proof.
  intros Hd. unfold Js.or_else, Js.truthy. destruct o as [s|]; [|exact Hd].
  destruct (String.eqb_spec s "") as [->|Hs]; [exact Hd | exact Hs].
Qed.

Lemma or_else_again (o : option string) (d : string) :
  Js.or_else (Some (Js.or_else o d)) d = Js.or_else o d.
Proof.
  unfold Js.or_else at 1. unfold Js.truthy.
  destruct (String.eqb_spec (Js.or_else o d) "") as [Hempty|_]; [|reflexivity].
  cbn [negb]. unfold Js.or_else, Js.truthy in *.
  destruct o as [s|]; [|now rewrite Hempty].
  destruct (String.eqb_spec s "") as [->|Hs]; cbn [negb] in *; congruence.
Qed.

Lemma or_else_keeps (s d : string) : s <> "" -> Js.or_else (Some s) d = s.
Proof.
  intros Hs. unfold Js.or_else. now rewrite (truthy_nonempty s Hs).
Qed.

(** A load either is refused, with a message and nothing else changed,
    or delivers the new table and its mapping. *)
Lemma handleFile_outcome (st : State) (fname : string) (res : ParseOutcome) :
  let r := handleFile st fname res in
  (onParsed r = [] /\ csv (next r) = csv st /\ mapping (next r) = mapping st
   /\ manualRow (next r) = manualRow st
   /\ exists msg, error (next r) = Some msg /\ msg <> "")
  \/ (exists c m, onParsed r = [(c, m)] /\ csv (next r) = Some c
                  /\ mapping (next r) = Some m /\ error (next r) = None
                  /\ headers c <> []
                  /\ manualRow (next r) = manualRow st).
Proof.
  unfold handleFile. destruct res as [data fields|message].
  - destruct (default [] fields) as [|h0 rest] eqn:Hfields.
    + left. cbn. repeat split. eexists. split; [reflexivity | discriminate].
    + right. cbn. eexists _, _. repeat split. discriminate.
  - left. cbn. repeat split. eexists. split; [reflexivity|].
    now apply or_else_nonempty.
Qed.

Lemma remove_at_from {A} (keep_from : nat) (i : nat) (l : list A) :
  remove_at i l
  = filter_from (fun _ j => negb (Nat.eqb j (keep_from + i))) keep_from l.
Proof.
  revert keep_from i. induction l as [|x l IH]; intros k i; [now destruct i|].
  destruct i as [|i]; cbn [remove_at filter_from].
  - rewrite Nat.add_0_r, Nat.eqb_refl. cbn [negb].
    clear IH. assert (Hrest : forall n (l' : list A), (k < n)%nat ->
               filter_from (fun _ j => negb (Nat.eqb j k)) n l' = l').
    { intros n l'. revert n. induction l' as [|y l' IH]; intros n Hn; [reflexivity|].
      cbn [filter_from]. destruct (Nat.eqb_spec n k); [lia|]. cbn [negb].
      rewrite IH by lia. reflexivity. }
    now rewrite Hrest by lia.
  - destruct (Nat.eqb_spec k (k + S i)); [lia|]. cbn [negb].
    rewrite (IH (S k) i). now replace (S k + i)%nat with (k + S i)%nat by lia.
Qed.

Lemma remove_at_take_drop {A} (i : nat) (l : list A) :
  remove_at i l = (take i l ++ drop (S i) l)%list.
Proof.
  revert i. induction l as [|x l IH]; intros i; [now destruct i|].
  destruct i as [|i]; cbn; [reflexivity | now rewrite IH].
Qed.

Lemma remove_at_last {A} (l : list A) (x : A) :
  remove_at (length l) (l ++ [x]) = l.
Proof. induction l as [|y l IH]; cbn; [reflexivity | now rewrite IH]. Qed.

Lemma blank_row_absent (hs : list string) (h : string) :
  h ∉ hs -> blank_row hs !! h = None.
Proof.
  unfold blank_row. intros Hnot.
  assert (Hgen : forall r : Row, r !! h = None ->
             foldl (fun r h => if String.eqb h "__proto__" then r else <[h := ""]> r)
                   r hs !! h = None).
  { induction hs as [|x hs IH]; intros r Hr; [exact Hr|].
    cbn [foldl]. apply IH.
    - intros Hin. apply Hnot. now right.
    - destruct (String.eqb x "__proto__"); [exact Hr|].
      rewrite lookup_insert_ne; [exact Hr|].
      intros ->. apply Hnot. now left. }
  apply Hgen, lookup_empty.
Qed.

(** A blank row has a cell for every header, as long as no header is
    [__proto__]. *)
Lemma blank_row_header_set (hs : list string) :
  "__proto__" ∉ hs -> has_header_set hs (blank_row hs).
Proof.
  intros Hproto h. split.
  - intros Hsome. destruct (decide (h ∈ hs)) as [Hin|Hnot]; [exact Hin|].
    rewrite (blank_row_absent hs h Hnot) in Hsome. now destruct Hsome.
  - intros Hin. rewrite (blank_row_lookup hs h Hin); [eauto|].
    intros ->. now apply Hproto.
Qed.

End TableOperations.

(** X3. A choice of columns survives a reload: whatever the new headers
    are, a load keeps a non-empty recipient column, a non-empty name
    column and a subject column that is not [null] as they were; and
    loading a table with the same headers a second time gives the same
    mapping as the first time. *)
Theorem mapping_survives_reload
    (st : State) (fname : string) (data : list (option Row)) (hs : list string) :
  hs <> [] ->
  let st1 := next (handleFile st fname (Complete data (Some hs))) in
  (forall m, mapping st = Some m ->
     exists m1, mapping st1 = Some m1
       /\ (forall rc, recipient m = Some rc -> rc <> "" -> recipient m1 = Some rc)
       /\ (forall n, name m = Some n -> n <> "" -> name m1 = Some n)
       /\ (forall s, subject m = Some s -> subject m1 = Some s))
  /\ (forall fname' data',
         mapping (next (handleFile st1 fname' (Complete data' (Some hs))))
         = mapping st1).
Proof.
  intros Hne st1.
  assert (Hlen : (Z.of_nat (length hs) =? 0) = false).
  { destruct hs; [congruence | reflexivity]. }
  assert (Hst1 : mapping st1 = Some
            {| recipient := Some (Js.or_else (mapping st ≫= recipient) (guessRecipient hs));
               name := Some (Js.or_else (mapping st ≫= name) (guessName hs));
               subject := match mapping st ≫= subject with
                          | Some s => Some s
                          | None => guessSubject hs
                          end |}).
  { unfold st1, handleFile. change (default [] (Some hs)) with hs.
    rewrite Hlen. reflexivity. }
  split.
  - intros m Hm. eexists. split; [exact Hst1|]. rewrite Hm. cbn.
    repeat split.
    + intros rc -> Hrc. now rewrite or_else_keeps.
    + intros n -> Hn. now rewrite or_else_keeps.
    + now intros s ->.
  - intros fname' data'. unfold handleFile at 1.
    change (default [] (Some hs)) with hs. rewrite Hlen.
    cbn [next mapping set_mapping]. rewrite Hst1.
    cbn [mbind option_bind recipient name subject]. rewrite !or_else_again.
    destruct (mapping st ≫= subject) as [s|]; [reflexivity|].
    now destruct (guessSubject hs).
Qed.

Lemma mapping_survives_reload_witness :
  mapping (next (handleFile sample_state "staff.csv"
                   (Complete [] (Some ["Mail"; "Person"]))))
  = Some sample_mapping.
Proof.
  destruct (mapping_survives_reload sample_state "staff.csv" [] ["Mail"; "Person"])
    as [Hkeep _]; [discriminate|].
  destruct (Hkeep sample_mapping eq_refl) as (m1 & Hm1 & Hr & Hn & _).
  rewrite Hm1. f_equal.
  specialize (Hr "Email" eq_refl). specialize (Hn "Name" eq_refl).
  destruct m1 as [r n s]. cbn in *.
  rewrite Hr, Hn by discriminate.
  vm_compute in Hm1. injection Hm1 as _ _ <-. reflexivity.
Defined.

(** X4. Every way of giving the component a file ends in one of two
    ways. Either the input is refused (a parse error, no headers, or a
    dropped file that is not CSV by its type or by a [.csv] suffix):
    then [onParsed] is not called, the error is a non-empty message, and
    the table, the mapping and the manual row are as before. Or the new
    table, with at least one header, and its mapping are stored and
    handed to [onParsed] once, and the error is cleared. A drop without a
    file changes nothing. *)
Theorem file_refused_or_delivered (st : State) :
  let refused r :=
    onParsed r = [] /\ csv (next r) = csv st /\ mapping (next r) = mapping st
    /\ manualRow (next r) = manualRow st
    /\ exists msg, error (next r) = Some msg /\ msg <> "" in
  let delivered r :=
    exists c m, onParsed r = [(c, m)] /\ csv (next r) = Some c
                /\ mapping (next r) = Some m /\ error (next r) = None
                /\ headers c <> [] /\ manualRow (next r) = manualRow st in
  (forall fname res,
      refused (handleFile st fname res) \/ delivered (handleFile st fname res))
  /\ (forall fname message, refused (handleFile st fname (ParseError message)))
  /\ (forall file res,
         refused (onDrop st (Some (file, res)))
         \/ delivered (onDrop st (Some (file, res))))
  /\ (forall file res,
         Js.includes (file_type file) "csv" = false ->
         Js.endsWith (file_name file) ".csv" = false ->
         refused (onDrop st (Some (file, res))))
  /\ onDrop st None = {| next := st; onParsed := [] |}.
Proof.
  cbv zeta. repeat apply conj.
  - intros fname res. apply handleFile_outcome.
  - intros fname message. cbn. repeat split. eexists. split; [reflexivity|].
    now apply or_else_nonempty.
  - intros file res. unfold onDrop.
    destruct (_ || _); [apply handleFile_outcome|].
    left. cbn. repeat split. eexists. split; [reflexivity | discriminate].
  - intros file res Htype Hname. unfold onDrop. rewrite Htype, Hname.
    cbn. repeat split. eexists. split; [reflexivity | discriminate].
  - reflexivity.
Qed.

Lemma file_refused_or_delivered_witness :
  csv (next (onDrop sample_state
               (Some ({| file_name := "PEOPLE.CSV"; file_type := "";
                         file_size := Some 10 |},
                      Complete [] (Some ["a"]))))) = Some sample_table.
Proof.
  destruct (file_refused_or_delivered sample_state) as (_ & _ & _ & Hdrop & _).
  destruct (Hdrop {| file_name := "PEOPLE.CSV"; file_type := ""; file_size := Some 10 |}
              (Complete [] (Some ["a"])) eq_refl eq_refl) as (_ & Hcsv & _).
  exact Hcsv.
Defined.

(** X5. The "Delete" button of row [i] keeps the headers and the mapping
    and keeps the rows whose index is not [i], in their order: the rows
    before [i] stay where they are and the later ones move up by one. For
    an index in range the row count drops by exactly one; for an index
    past the end nothing is removed. *)
Theorem delete_row_removes_one (st : State) (c : ParsedCsv) (i : nat) :
  csv st = Some c ->
  exists c',
    csv (next (deleteRow st i)) = Some c'
    /\ headers c' = headers c
    /\ mapping (next (deleteRow st i)) = mapping st
    /\ rows c' = filter_from (fun _ j => negb (Nat.eqb j i)) 0 (rows c)
    /\ rows c' = (take i (rows c) ++ drop (S i) (rows c))%list
    /\ (forall j, (j < i)%nat -> rows c' !! j = rows c !! j)
    /\ (forall j, (i <= j)%nat -> rows c' !! j = rows c !! S j)
    /\ ((i < length (rows c))%nat ->
        rowCount c' = Z.of_nat (length (rows c)) - 1)
    /\ ((length (rows c) <= i)%nat -> rows c' = rows c).
Proof.
  intros Hcsv. unfold deleteRow. rewrite Hcsv. cbn.
  eexists. split; [reflexivity|]. cbn.
  split; [reflexivity|]. split; [reflexivity|].
  split; [apply (remove_at_from 0)|].
  rewrite remove_at_take_drop. split; [reflexivity|].
  repeat split.
  - intros j Hj. destruct (decide (i <= length (rows c))%nat).
    + rewrite lookup_app_l by (rewrite length_take; lia).
      now rewrite lookup_take_lt.
    + rewrite take_ge, drop_ge, app_nil_r by lia. reflexivity.
  - intros j Hj. destruct (decide (i <= length (rows c))%nat).
    + rewrite lookup_app_r by (rewrite length_take; lia).
      rewrite length_take, lookup_drop. f_equal. lia.
    + rewrite take_ge, drop_ge, app_nil_r by lia.
      rewrite !lookup_ge_None_2 by lia. reflexivity.
  - intros Hi. rewrite length_app, length_take, length_drop. lia.
  - intros Hi. now rewrite take_ge, drop_ge, app_nil_r by lia.
Qed.

Lemma delete_row_removes_one_witness :
  exists c', csv (next (deleteRow sample_state 0)) = Some c'
             /\ rows c' = [ {[ "Name" := "Bob"; "Email" := "bob@x.com" ]} ]
             /\ rowCount c' = 1.
Proof.
  destruct (delete_row_removes_one sample_state sample_table 0 eq_refl)
    as (c' & Hcsv & _ & _ & _ & Hrows & _ & _ & Hcount & _).
  exists c'. split; [exact Hcsv|]. split; [exact Hrows|].
  apply Hcount. cbn. lia.
Defined.

(** X6. Appending a manual row and then deleting the last row gives back
    the table as it was, provided its row count was its number of
    rows. *)
Theorem append_then_delete_restores (st : State) (c : ParsedCsv) :
  csv st = Some c -> counted c -> ~ recipient_blank st ->
  csv (next (deleteRow (next (addManualRow st)) (length (rows c)))) = Some c.
Proof.
  intros Hcsv Hcounted Hfilled.
  assert (Hmissing : recipient_missing st = false).
  { apply not_true_is_false. intros Hc. apply Hfilled.
    now apply recipient_missing_spec. }
  unfold addManualRow. rewrite Hmissing, Hcsv. cbn.
  rewrite remove_at_last. f_equal.
  destruct c as [hs rs n]. unfold counted in Hcounted. cbn in *.
  now rewrite Hcounted.
Qed.

Lemma append_then_delete_restores_witness :
  csv (next (deleteRow (next (addManualRow jane_with_email)) 2))
  = Some sample_table.
Proof.
  apply (append_then_delete_restores jane_with_email sample_table eq_refl eq_refl).
  intros Hblank. specialize (Hblank " jane@x.com " eq_refl).
  vm_compute in Hblank. discriminate Hblank.
Defined.

(** X7. Manual entry keeps rows and headers together, on a table none of
    whose headers is [__proto__]. Opening manual entry leaves a manual
    row whose keys are exactly the headers of the table (the default
    headers when there was no table). From a manual row with exactly the
    headers as keys, typing in the cell of a header keeps that; and when
    the recipient cell is made of ASCII characters and is not blank, the
    append stores a record whose keys are exactly the headers and leaves
    a fresh manual row of the same shape. *)
Theorem manual_entry_keeps_header_set (st : State) :
  (let st' := next (initializeManualEntry st) in
   showManualEntry st' = true
   /\ ("__proto__" ∉ current_headers st' ->
       has_header_set (current_headers st') (manualRow st')))
  /\ (has_header_set (current_headers st) (manualRow st) ->
      forall h v, h ∈ current_headers st ->
        let st' := next (editManualCell st h v) in
        has_header_set (current_headers st') (manualRow st')
        /\ manualRow st' !! h = Some v)
  /\ (has_header_set (current_headers st) (manualRow st) ->
      "__proto__" ∉ current_headers st ->
      (forall v, manualRow st !! recipientKey st = Some v -> ascii_only v = true) ->
      ~ recipient_blank st ->
      exists c record,
        csv (next (addManualRow st)) = Some c
        /\ rows c = (current_rows st ++ [record])%list
        /\ has_header_set (headers c) record
        /\ has_header_set (headers c) (manualRow (next (addManualRow st)))).
Proof.
  split; [|split].
  - unfold initializeManualEntry. destruct (csv st) as [c|] eqn:Hcsv; cbn.
    + unfold current_headers. cbn. rewrite Hcsv.
      split; [reflexivity | apply blank_row_header_set].
    + split; [reflexivity|]. apply (blank_row_header_set DEFAULT_HEADERS).
  - intros Hset h v Hh. cbn. split; [|apply lookup_insert_eq].
    intros k. change (current_headers _) with (current_headers st).
    destruct (decide (h = k)) as [<-|Hne].
    + rewrite lookup_insert_eq. split; [now intros _ | eauto].
    + rewrite lookup_insert_ne by exact Hne. apply Hset.
  - intros Hset Hproto _ Hfilled.
    assert (Hmissing : recipient_missing st = false).
    { apply not_true_is_false. intros Hc. apply Hfilled.
      now apply recipient_missing_spec. }
    unfold addManualRow. rewrite Hmissing. cbn.
    eexists _, (manualRow st). split; [reflexivity|]. cbn.
    split; [reflexivity|]. split; [exact Hset | now apply blank_row_header_set].
Qed.

Lemma manual_entry_keeps_header_set_witness :
  exists c record,
    csv (next (addManualRow
                 (next (editManualCell (next (initializeManualEntry (initial None)))
                          "email" "a@x.com")))) = Some c
    /\ rows c = [record] /\ has_header_set ["email"; "name"] record.
Proof.
  pose (st0 := next (initializeManualEntry (initial None))).
  pose (st1 := next (editManualCell st0 "email" "a@x.com")).
  assert (Hproto : "__proto__" ∉ ["email"; "name"]).
  { intros H. repeat (apply elem_of_cons in H as [H|H]; [discriminate H|]).
    inversion H. }
  destruct (manual_entry_keeps_header_set (initial None)) as ([_ Hinit] & _).
  destruct (manual_entry_keeps_header_set st0) as (_ & Hedit & _).
  destruct (Hedit (Hinit Hproto) "email" "a@x.com") as [Hset _]; [now left|].
  destruct (manual_entry_keeps_header_set st1) as (_ & _ & Hadd).
  destruct (Hadd Hset Hproto) as (c & record & Hcsv & Hrows & Hrecord & _).
  - intros v Hv. vm_compute in Hv. injection Hv as <-. reflexivity.
  - intros Hblank. specialize (Hblank "a@x.com" eq_refl).
    vm_compute in Hblank. discriminate Hblank.
  - exists c, record. split; [exact Hcsv|]. split; [exact Hrows|].
    assert (Hheaders : headers c = ["email"; "name"]).
    { vm_compute in Hcsv. injection Hcsv as <-. reflexivity. }
    now rewrite <- Hheaders.
Defined.

(** X8. Apart from a load and the "Reset" button, no action replaces an
    existing table or touches its headers, and none reorders its rows:
    afterwards the rows are the same, or the same followed by the manual
    row, or the same without one of them. *)
Theorem rows_change_by_one_at_most (st : State) (a : Action) (c : ParsedCsv) :
  csv st = Some c ->
  match a with
  | ALoad _ _ | AReset => True
  | _ =>
      exists c',
        csv (next (act st a)) = Some c'
        /\ headers c' = headers c
        /\ (rows c' = rows c
            \/ rows c' = (rows c ++ [manualRow st])%list
            \/ exists i, rows c' = remove_at i (rows c))
  end.
Proof.
  intros Hcsv.
  destruct a as [fname res|key value| |header value| | |i|]; cbn [act];
    try exact I.
  - unfold onChangeSelect. rewrite Hcsv. cbn. rewrite Hcsv. eauto.
  - unfold initializeManualEntry. rewrite Hcsv. cbn. rewrite Hcsv. eauto.
  - cbn. rewrite Hcsv. eauto.
  - unfold addManualRow. destruct (recipient_missing st); cbn; rewrite Hcsv.
    + eauto.
    + eexists. split; [reflexivity|]. cbn. eauto.
  - cbn. rewrite Hcsv. eauto.
  - unfold deleteRow. rewrite Hcsv. cbn.
    eexists. split; [reflexivity|]. cbn. eauto.
Qed.

Lemma rows_change_by_one_at_most_witness :
  exists c', csv (next (act sample_state (ASelect KSubject "Name"))) = Some c'
             /\ headers c' = headers sample_table
             /\ (rows c' = rows sample_table
                 \/ rows c' = (rows sample_table ++ [manualRow sample_state])%list
                 \/ exists i, rows c' = remove_at i (rows sample_table)).
Proof.
  exact (rows_change_by_one_at_most sample_state (ASelect KSubject "Name")
           sample_table eq_refl).
Defined.

(** * Further properties of the attachment component *)

Section ReconciliationMore.

Variable normalizeNameKey : string -> string.
Variable table : option ParsedCsv.
Variable columns : option CsvMapping.

Local Abbreviation names := (rowsNameSet normalizeNameKey table columns).
Local Abbreviation body := (computed_body normalizeNameKey table columns).
Local Abbreviation original := (originalName normalizeNameKey table columns).

Lemma computed_body_fold (acc : tally) (kv : string * list AttachmentEntry)
    (l : list (string * list AttachmentEntry)) :
  foldl body acc (kv :: l) = foldl body (body acc kv) l.
Proof. reflexivity. Qed.



Lemma pair_files_from (pairs : list (string * list string)) (a : Z) :
  foldl (fun acc p => acc + Z.of_nat (length p.2)) a pairs = a + pair_files pairs.
Proof.
  unfold pair_files. revert a.
  induction pairs as [|p pairs IH]; intros a; cbn [foldl]; [lia|].
  rewrite (IH (a + _)), (IH (0 + _)). lia.
Qed.



(** When no key of the list is a name of the table, nothing is matched. *)
Lemma loop_nothing_matched (l : list (string * list AttachmentEntry)) (acc : tally) :
  Forall (fun kv => kv.1 ∉ names) l ->
  (foldl body acc l).1.1 = acc.1.1 /\ (foldl body acc l).2 = acc.2.
Proof.
  revert acc. induction l as [|[key arr] l IH]; intros acc Hall; [now split|].
  inversion Hall as [|? ? Hkey Hrest]; subst. cbn [fst] in Hkey.
  rewrite computed_body_fold. destruct (IH (body acc (key, arr)) Hrest) as [-> ->].
  destruct acc as [[m un] pairs]. unfold computed_body.
  destruct (decide (key ∈ names)); [contradiction | now split].
Qed.


(** X10. Without a table, without a mapping, or with a table that has no
    rows, nothing is matched: [matched] is 0, there is no pair, and
    [unmatched] is the number of files. On an empty index every tally is
    0 and both lists are empty. *)
Theorem nothing_to_match (value : AttachIndex) :
  let c := computed normalizeNameKey table columns value in
  ((table = None \/ columns = None \/ (exists t, table = Some t /\ rows t = [])) ->
   matched c = 0 /\ matchedPairs c = [] /\ unmatched c = files c
   /\ Z.of_nat (length (unmatchedFiles c)) = files c)
  /\ (value = ∅ ->
      files c = 0 /\ matched c = 0 /\ unmatched c = 0
      /\ unmatchedFiles c = [] /\ matchedPairs c = []).
Proof.
  split.
  - intros Hnone.
    assert (Hnames : names = ∅).
    { unfold rowsNameSet.
      destruct Hnone as [->|[->|(t & -> & Hrows)]];
        [reflexivity | now destruct table |].
      destruct columns; [now rewrite Hrows | reflexivity]. }
    unfold computed.
    pose proof (computed_loop_balance normalizeNameKey table columns
                  (map_to_list value) (0, [], [])) as Hbal.
    destruct (loop_nothing_matched (map_to_list value) (0, [], [])) as [Hm Hp].
    { apply Forall_forall. intros kv _. rewrite Hnames. apply not_elem_of_empty. }
    cbv zeta in Hbal.
    destruct (foldl body (0, [], []) (map_to_list value)) as [[m un] pairs].
    cbn in Hbal, Hm, Hp |- *. fold (entry_count (map_to_list value)).
    subst m pairs. repeat split; lia.
  - intros ->. unfold computed. rewrite map_to_list_empty. cbn. repeat split.
Qed.

End ReconciliationMore.

Lemma nothing_to_match_witness :
  matched (computed sample_normalize (Some empty_table) (Some sample_mapping)
             {[ "jane doe" := [jane_entry] ]}) = 0
  /\ files (computed sample_normalize None None ∅) = 0.
Proof.
  split.
  - apply (proj1 (nothing_to_match sample_normalize (Some empty_table)
                    (Some sample_mapping) {[ "jane doe" := [jane_entry] ]})).
    right. right. now exists empty_table.
  - now apply (proj2 (nothing_to_match sample_normalize None None ∅)).
Defined.

Section NamesOfTheTable.

Variable normalizeNameKey : string -> string.

Lemma find_first {A} (f : A -> bool) (l : list A) (x : A) :
  find f l = Some x ->
  exists pre post, l = (pre ++ x :: post)%list /\ f x = true
                   /\ Forall (fun y => f y = false) pre.
Proof.
  induction l as [|y l IH]; cbn [find]; [discriminate|].
  destruct (f y) eqn:Hy.
  - intros [= <-]. exists [], l. repeat split; [exact Hy | constructor].
  - intros Hfind. destruct (IH Hfind) as (pre & post & -> & Hx & Hpre).
    exists (y :: pre), post. repeat split; [exact Hx | now constructor].
Qed.

Lemma find_some_exists {A} (f : A -> bool) (l : list A) (y : A) :
  y ∈ l -> f y = true -> exists x, find f l = Some x.
Proof.
  induction 1 as [y l|y z l _ IH]; intros Hy; cbn [find].
  - rewrite Hy. eauto.
  - destruct (f z); [eauto | now apply IH].
Qed.

(** X11. When the name column is not a property name of
    [Object.prototype]: a key is a name of the table exactly when some
    row gives it under the name column once normalized. For a name column
    that is set and non-empty, the display name of such a key is read
    from the first row that gives the key: it is the cell of that row,
    and then it normalizes to the key, or the key itself when the cell is
    empty or missing. *)
Theorem names_come_from_rows (t : ParsedCsv) (m : CsvMapping) (key : string) :
  inherited (prop_key (name m)) = false ->
  (key ∈ rowsNameSet normalizeNameKey (Some t) (Some m)
   <-> exists r, r ∈ rows t
                 /\ normalizeNameKey (Js.or_else (r !! prop_key (name m)) "") = key)
  /\ (forall n, name m = Some n -> n <> "" ->
      key ∈ rowsNameSet normalizeNameKey (Some t) (Some m) ->
      exists pre r post,
        rows t = (pre ++ r :: post)%list
        /\ normalizeNameKey (Js.or_else (r !! n) "") = key
        /\ Forall (fun x => normalizeNameKey (Js.or_else (x !! n) "") <> key) pre
        /\ originalName normalizeNameKey (Some t) (Some m) key
           = Js.or_else (r !! n) key
        /\ (forall v, r !! n = Some v -> v <> "" ->
              originalName normalizeNameKey (Some t) (Some m) key = v
              /\ normalizeNameKey v = key)).
Proof.
  intros _.
  assert (Hmem : key ∈ rowsNameSet normalizeNameKey (Some t) (Some m)
                 <-> exists r, r ∈ rows t
                       /\ normalizeNameKey (Js.or_else (r !! prop_key (name m)) "") = key).
  { unfold rowsNameSet. rewrite elem_of_list_to_set.
    change (map ?f ?l) with (f <$> l). rewrite list_elem_of_fmap.
    unfold row_key. split; intros (r & H1 & H2); exists r; now split. }
  split; [exact Hmem|].
  intros n Hn Hne Hkey. apply Hmem in Hkey as (r0 & Hin & Hr0).
  rewrite Hn in Hr0. cbn [prop_key] in Hr0.
  unfold originalName. cbn [mbind option_bind]. rewrite Hn.
  rewrite (or_else_keeps n "" Hne).
  destruct (find_some_exists
              (fun r => String.eqb (row_key normalizeNameKey n r) key) (rows t) r0 Hin)
    as [r Hfind].
  { apply String.eqb_eq. exact Hr0. }
  rewrite Hfind. cbn [mbind option_bind].
  apply find_first in Hfind as (pre & post & Hrows & Hr & Hpre).
  apply String.eqb_eq in Hr. unfold row_key in Hr.
  exists pre, r, post. split; [exact Hrows|]. split; [exact Hr|].
  split; [|split; [reflexivity|]].
  - eapply Forall_impl; [exact Hpre|]. intros x Hx.
    apply String.eqb_neq in Hx. exact Hx.
  - intros v Hv Hvne. rewrite Hv in Hr |- *.
    rewrite (or_else_keeps v key Hvne). rewrite (or_else_keeps v "" Hvne) in Hr.
    now split.
Qed.

End NamesOfTheTable.

Lemma names_come_from_rows_witness :
  originalName sample_normalize (Some sample_table) (Some sample_mapping) "jane doe"
  = "Jane Doe".
Proof.
  destruct (names_come_from_rows sample_normalize sample_table sample_mapping "jane doe"
              eq_refl)
    as [Hmem Horig].
  destruct (Horig "Name" eq_refl) as (pre & r & post & Hrows & Hkey & Hpre & Hname & _).
  - discriminate.
  - apply Hmem. eexists. split; [apply list_elem_of_here | reflexivity].
  - destruct pre as [|x pre].
    + injection Hrows as <- _. rewrite Hname. reflexivity.
    + injection Hrows as <- Hrest. apply Forall_cons in Hpre as [Hx _].
      exfalso. apply Hx. reflexivity.
Defined.

Section IngestMore.

Variable normalizeNameKey : string -> string.
Variable fileToBase64 : File -> option string.

Local Abbreviation decoded := (decoded normalizeNameKey fileToBase64).
Local Abbreviation failures := (failures fileToBase64).
Local Abbreviation file_key := (file_key normalizeNameKey).
Local Abbreviation onUpload := (onUpload normalizeNameKey fileToBase64).
Local Abbreviation filed := (filed normalizeNameKey fileToBase64).
Local Abbreviation refused := (refused normalizeNameKey fileToBase64).

(** What [onUpload] hands over for a non-empty list of files. *)
Lemma onUpload_nonempty (value : AttachIndex) (fl : list File) :
  fl <> [] ->
  onUpload value (Some fl)
  = Some {| changed := foldl append_item value (filed value fl);
            failedNames := refused value fl;
            uploadError := if 0 <? Z.of_nat (length (refused value fl))
                           then Some (failed_message (refused value fl)) else None |}.
Proof.
  intros Hne. unfold onUpload. destruct fl as [|f0 fs]; [congruence|].
  now rewrite upload_loop.
Qed.

Lemma filed_all_unreadable (value : AttachIndex) (fl : list File) :
  Forall (fun file => fileToBase64 file = None) fl ->
  filed value fl = [] /\ length (refused value fl) = length fl.
Proof.
  induction 1 as [|file fl Hfile _ [IHd IHf]]; [now split|].
  rewrite filed_cons, refused_cons, Hfile. cbn [length]. now rewrite IHd, IHf.
Qed.

Lemma decoded_failures_length (fl : list File) :
  (length (decoded fl) + length (failures fl))%nat = length fl.
Proof.
  induction fl as [|file fl IH]; [reflexivity|].
  rewrite decoded_cons, failures_cons.
  destruct (fileToBase64 file); cbn [length]; lia.
Qed.

(** Where an item of [decoded] comes from. *)
Lemma decoded_origin (fl : list File) (k : string) (e : AttachmentEntry) :
  (k, e) ∈ decoded fl
  <-> exists file content, file ∈ fl /\ fileToBase64 file = Some content
                           /\ k = file_key file /\ e = entry_of file content.
Proof.
  unfold decoded. rewrite list_elem_of_omap. split.
  - intros (file & Hin & Hsome).
    destruct (fileToBase64 file) as [content|] eqn:Hread; [|discriminate].
    injection Hsome as <- <-. now exists file, content.
  - intros (file & content & Hin & Hread & -> & ->).
    exists file. split; [exact Hin | now rewrite Hread].
Qed.

Lemma committed_elem (value : AttachIndex) (items : list (string * AttachmentEntry))
    (k : string) (e : AttachmentEntry) :
  (exists arr, committed value items k = Some arr /\ e ∈ arr)
  <-> (exists old, value !! k = Some old /\ e ∈ old) \/ (k, e) ∈ items.
Proof.
  rewrite <- elem_of_bucket_of. unfold committed.
  destruct (bucket_of k items) as [|x added].
  - split; [now left | intros [H|H]; [exact H | inversion H]].
  - split.
    + intros (arr & [= <-] & He). apply elem_of_app in He as [He|He]; [|now right].
      left. destruct (value !! k) as [old|]; [now exists old | inversion He].
    + intros [(old & Hold & He)|He]; eexists; (split; [reflexivity|]);
        apply elem_of_app; [left; now rewrite Hold | now right].
Qed.

Lemma entry_in_committed (value : AttachIndex) (items : list (string * AttachmentEntry))
    (e : AttachmentEntry) :
  entry_in (foldl append_item value items) e
  <-> entry_in value e \/ e ∈ items.*2.
Proof.
  unfold entry_in. split.
  - intros (k & arr & Hlook & He). rewrite append_items_lookup in Hlook.
    destruct (proj1 (committed_elem value items k e)) as [(old & Hold & Hin)|Hin];
      [now exists arr | left; now exists k, old |].
    right. apply list_elem_of_fmap. now exists (k, e).
  - intros [(k & old & Hold & He)|He].
    + destruct (proj2 (committed_elem value items k e)) as (arr & Harr & Hin);
        [left; now exists old|].
      exists k, arr. now rewrite append_items_lookup.
    + apply list_elem_of_fmap in He as ([k e'] & -> & Hin). cbn [snd].
      destruct (proj2 (committed_elem value items k e')) as (arr & Harr & He);
        [now right|].
      exists k, arr. now rewrite append_items_lookup.
Qed.

Lemma entry_count_cons (kv : string * list AttachmentEntry)
    (l : list (string * list AttachmentEntry)) :
  entry_count (kv :: l) = Z.of_nat (length kv.2) + entry_count l.
Proof.
  unfold entry_count at 1. cbn [foldl]. rewrite entry_count_from. lia.
Qed.

Lemma entry_count_perm (l l' : list (string * list AttachmentEntry)) :
  l ≡ₚ l' -> entry_count l = entry_count l'.
Proof.
  induction 1 as [|x l l' _ IH|x y l|l l' l'' _ IH1 _ IH2].
  - reflexivity.
  - now rewrite !entry_count_cons, IH.
  - rewrite !entry_count_cons. lia.
  - now rewrite IH1.
Qed.

Lemma entry_count_append_item (idx : AttachIndex) (item : string * AttachmentEntry) :
  entry_count (map_to_list (append_item idx item))
  = entry_count (map_to_list idx) + 1.
Proof.
  destruct item as [k e]. unfold append_item. cbn [fst snd].
  destruct (idx !! k) as [old|] eqn:Hk; cbn [default from_option id].
  - rewrite <- insert_delete_eq.
    rewrite (entry_count_perm _ _ (map_to_list_insert (delete k idx) k _
                                     (lookup_delete_eq idx k))).
    rewrite <- (entry_count_perm _ _ (map_to_list_delete idx k old Hk)).
    rewrite !entry_count_cons. cbn [snd]. rewrite length_app. cbn [length]. lia.
  - rewrite (entry_count_perm _ _ (map_to_list_insert idx k _ Hk)).
    rewrite entry_count_cons. cbn. lia.
Qed.

Lemma entry_count_append_items (items : list (string * AttachmentEntry))
    (idx : AttachIndex) :
  entry_count (map_to_list (foldl append_item idx items))
  = entry_count (map_to_list idx) + Z.of_nat (length items).
Proof.
  revert idx. induction items as [|item items IH]; intros idx; cbn [foldl length].
  - lia.
  - rewrite IH, entry_count_append_item. lia.
Qed.

(** X12. [onUpload] does nothing, and does not call [onChange], for a
    missing or empty list of files. For a non-empty list it always calls
    [onChange]; the error message is absent exactly when the failed list
    is empty, which is exactly when every file could be read and none has
    a blocked key (a property name of [Object.prototype] for which the
    index has no bucket); and when no file could be read the index handed
    over is the one it was given and every file is in the failed list. *)
Theorem upload_reports_failures (value : AttachIndex) (fl : list File) :
  onUpload value None = None
  /\ onUpload value (Some []) = None
  /\ (fl <> [] ->
      exists u,
        onUpload value (Some fl) = Some u
        /\ (uploadError u = None <-> failedNames u = [])
        /\ (failedNames u = []
            <-> Forall (fun file => is_Some (fileToBase64 file)
                                    /\ blocked value (file_key file) = false) fl)
        /\ (Forall (fun file => fileToBase64 file = None) fl ->
            changed u = value /\ length (failedNames u) = length fl)).
Proof.
  split; [reflexivity|]. split; [reflexivity|].
  intros Hne. rewrite (onUpload_nonempty value fl Hne).
  eexists. split; [reflexivity|]. cbn [uploadError failedNames changed].
  split; [|split].
  - destruct (refused value fl) as [|x failed]; cbn [length].
    + split; reflexivity.
    + destruct (Z.ltb_spec 0 (Z.of_nat (S (length failed)))) as [_|Hle]; [|lia].
      split; discriminate.
  - apply refused_nil.
  - intros Hall. destruct (filed_all_unreadable value fl Hall) as [-> Hlen].
    now split.
Qed.

(** X13. After an upload the restriction flag is set exactly when it was
    set before or one of the entries just filed (read, and under a key
    that is not blocked) is a PDF of 1 to 2 MiB: an upload never clears
    the flag. *)
Theorem upload_flag (value : AttachIndex) (fl : list File) :
  fl <> [] ->
  exists u,
    onUpload value (Some fl) = Some u
    /\ largePdfDetected (changed u)
       = largePdfDetected value || existsb large_pdf_entry (filed value fl).*2
    /\ (largePdfDetected value = true -> largePdfDetected (changed u) = true).
Proof.
  intros Hne. rewrite (onUpload_nonempty value fl Hne).
  eexists. split; [reflexivity|]. cbn [changed].
  assert (Hflag : largePdfDetected (foldl append_item value (filed value fl))
                  = largePdfDetected value
                    || existsb large_pdf_entry (filed value fl).*2).
  { apply eq_true_iff_eq.
    rewrite orb_true_iff, !largePdfDetected_some_entry, existsb_exists. split.
    - intros (e & Hin & Hlarge). apply entry_in_committed in Hin as [Hold|Hnew].
      + left. now exists e.
      + right. exists e. split; [now apply list_elem_of_In | exact Hlarge].
    - intros [(e & Hin & Hlarge)|(e & Hin & Hlarge)]; exists e;
        (split; [apply entry_in_committed | exact Hlarge]).
      + now left.
      + right. now apply list_elem_of_In. }
  split; [exact Hflag|]. intros Hold. now rewrite Hflag, Hold.
Qed.

(** X14. An upload keeps the two invariants of the index: if every entry
    sits in the bucket of the normalized base name of its file name, and
    if no bucket is empty, the same holds of the index handed to
    [onChange]. *)
Theorem upload_keeps_index_invariants (value : AttachIndex) (fl : list File) :
  fl <> [] ->
  exists u,
    onUpload value (Some fl) = Some u
    /\ (keyed normalizeNameKey value -> keyed normalizeNameKey (changed u))
    /\ (no_empty_bucket value -> no_empty_bucket (changed u)).
Proof.
  intros Hne. rewrite (onUpload_nonempty value fl Hne).
  eexists. split; [reflexivity|]. cbn [changed]. split.
  - intros Hkeyed k arr e Hlook He. rewrite append_items_lookup in Hlook.
    destruct (proj1 (committed_elem value (filed value fl) k e))
      as [(old & Hold & Hin)|Hin]; [now exists arr | now apply (Hkeyed k old) |].
    apply filed_decoded in Hin.
    apply decoded_origin in Hin as (file & content & _ & _ & -> & ->).
    reflexivity.
  - intros Hfull k arr Hlook. rewrite append_items_lookup in Hlook.
    unfold committed in Hlook. destruct (bucket_of k (filed value fl)) as [|x added].
    + now apply (Hfull k).
    + injection Hlook as <-. intros Hnil. apply app_eq_nil in Hnil as [_ [=]].
Qed.

(** X15. An upload adds one entry per file filed (read, and under a key
    that is not blocked) and one failed name per other file: the number
    of entries of the index grows by the number of files filed, files
    filed and failed names together are as many as the files given, and
    no more files are filed than were read. *)
Theorem upload_counts (value : AttachIndex) (fl : list File) :
  fl <> [] ->
  exists u,
    onUpload value (Some fl) = Some u
    /\ entry_count (map_to_list (changed u))
       = entry_count (map_to_list value) + Z.of_nat (length (filed value fl))
    /\ (length (filed value fl) + length (failedNames u))%nat = length fl
    /\ (length (filed value fl) <= length (decoded fl))%nat
    /\ entry_count (map_to_list value) <= entry_count (map_to_list (changed u)).
Proof.
  intros Hne. rewrite (onUpload_nonempty value fl Hne).
  eexists. split; [reflexivity|]. cbn [changed failedNames].
  rewrite entry_count_append_items.
  split; [reflexivity|]. split; [apply filed_refused_length|].
  split; [|lia].
  clear. induction fl as [|file fl IH]; [reflexivity|].
  rewrite filed_cons, decoded_cons.
  destruct (fileToBase64 file) as [content|]; [|exact IH].
  destruct (blocked value (file_key file)); cbn [length]; lia.
Qed.

(** X16. [uploadAttachmentsAction] fails exactly when the form holds no
    file (string values do not count), with the message "No files
    provided". Otherwise it answers with the items of the files read, in
    the order of the files, each under the normalized base name of its
    own file name, and the failed names; items and failed names together
    are as many as the files. *)
Theorem action_accounts_for_every_file (input : list FormValue) :
  let fl := omap isFileLike input in
  let result := uploadAttachmentsAction normalizeNameKey fileToBase64 input in
  (fl = [] <-> result = UploadErr "No files provided")
  /\ (forall message, result = UploadErr message -> fl = [])
  /\ (forall items failed,
         result = UploadOk items failed ->
         (length items + length failed)%nat = length fl
         /\ Forall (fun item => item.1
                     = normalizeNameKey (fileBaseName (filename item.2))) items
         /\ filename <$> items.*2
            = file_name <$> filter (fun file => is_Some (fileToBase64 file)) fl).
Proof.
  intros fl result.
  assert (Hresult : result = match fl with
                             | [] => UploadErr "No files provided"
                             | _ => UploadOk (decoded fl) (failures fl)
                             end).
  { unfold result, uploadAttachmentsAction. fold fl.
    destruct fl as [|f0 fs]; [reflexivity | now rewrite action_loop]. }
  rewrite Hresult. split; [|split].
  - destruct fl; split; congruence.
  - intros message. destruct fl; [reflexivity | discriminate].
  - intros items failed. destruct fl as [|f0 fs] eqn:Hfl; [discriminate|].
    rewrite <- Hfl. intros [= <- <-]. split; [apply decoded_failures_length|].
    split.
    + apply Forall_forall. intros [k e] Hin.
      apply decoded_origin in Hin as (file & content & _ & _ & -> & ->).
      reflexivity.
    + clear. induction fl as [|file fl IH]; [reflexivity|].
      rewrite decoded_cons. destruct (fileToBase64 file) as [content|] eqn:Hread.
      * rewrite filter_cons_True by (rewrite Hread; eauto).
        cbn [fmap list_fmap snd]. cbn in IH |- *. now rewrite IH.
      * rewrite filter_cons_False by (rewrite Hread; intros [? [=]]).
        exact IH.
Qed.

End IngestMore.

Lemma upload_reports_failures_witness :
  exists u, onUpload sample_normalize sample_read ∅ (Some [broken_bin]) = Some u
            /\ changed u = ∅ /\ length (failedNames u) = 1%nat.
Proof.
  destruct (upload_reports_failures sample_normalize sample_read ∅ [broken_bin])
    as (_ & _ & Hu).
  destruct Hu as (u & Hup & _ & _ & Hall); [discriminate|].
  exists u. split; [exact Hup|]. apply Hall. repeat constructor.
Defined.

Lemma upload_flag_witness :
  exists u, onUpload sample_normalize sample_read ∅ (Some [jane_pdf]) = Some u
            /\ largePdfDetected (changed u) = true.
Proof.
  destruct (upload_flag sample_normalize sample_read ∅ [jane_pdf])
    as (u & Hup & Hflag & _); [discriminate|].
  exists u. split; [exact Hup|]. rewrite Hflag. reflexivity.
Defined.

Lemma upload_keeps_index_invariants_witness :
  exists u, onUpload sample_normalize sample_read ∅ (Some [jane_pdf; carol_png]) = Some u
            /\ keyed sample_normalize (changed u) /\ no_empty_bucket (changed u).
Proof.
  destruct (upload_keeps_index_invariants sample_normalize sample_read ∅
              [jane_pdf; carol_png]) as (u & Hup & Hkeyed & Hfull); [discriminate|].
  exists u. split; [exact Hup|]. split.
  - apply Hkeyed. intros k arr e Hlook. now rewrite lookup_empty in Hlook.
  - apply Hfull. intros k arr Hlook. now rewrite lookup_empty in Hlook.
Defined.

Lemma upload_counts_witness :
  exists u, onUpload sample_normalize sample_read ∅
              (Some [jane_pdf; broken_bin; carol_png]) = Some u
            /\ entry_count (map_to_list (changed u)) = 2.
Proof.
  destruct (upload_counts sample_normalize sample_read ∅
              [jane_pdf; broken_bin; carol_png]) as (u & Hup & Hcount & _);
    [discriminate|].
  exists u. split; [exact Hup|]. rewrite Hcount. reflexivity.
Defined.

Section BaseNameMore.

Lemma append_nil_r (s : string) : s ++ "" = s.
Proof.
  induction s as [|c s IH]; [reflexivity|]. now rewrite append_cons, IH.
Qed.

(** The last dot splits the name into what is before it and a dot-free
    rest. *)
Lemma lastIndexOf_split (s : string) :
  0 <= Js.lastIndexOf s dot ->
  exists pre ext, s = pre ++ String dot ext /\ has_dot ext = false
                  /\ Js.lastIndexOf s dot = Z.of_nat (String.length pre).
Proof.
  induction s as [|a s IH]; [cbn; lia|].
  cbn [Js.lastIndexOf]. cbv zeta.
  destruct (Z.leb_spec 0 (Js.lastIndexOf s dot)) as [Hge|Hlt].
  - intros _. destruct (IH Hge) as (pre & ext & -> & Hext & Hidx).
    exists (String a pre), ext. rewrite append_cons. repeat split; [exact Hext|].
    rewrite Hidx. cbn [String.length]. lia.
  - destruct (Ascii.eqb_spec a dot) as [->|Hne]; [|lia].
    intros _. exists "", s. repeat split.
    clear IH. revert Hlt. induction s as [|b s IH]; [reflexivity|].
    cbn [Js.lastIndexOf has_dot]. cbv zeta.
    destruct (Z.leb_spec 0 (Js.lastIndexOf s dot)) as [Hge|Hlt']; [lia|].
    destruct (Ascii.eqb_spec b dot); [lia|]. intros _. now apply IH.
Qed.

End BaseNameMore.

(** X17. The base name is always a prefix of the file name: what is cut
    off is nothing, or one dot followed by a part without dots. The base
    name of a non-empty name is never empty, and it is never longer than
    the name. *)
Theorem fileBaseName_is_prefix (name : string) :
  (exists ext,
      name = fileBaseName name ++ ext
      /\ (ext = "" \/ exists e, ext = String dot e /\ has_dot e = false))
  /\ (name <> "" -> fileBaseName name <> "")
  /\ (String.length (fileBaseName name) <= String.length name)%nat.
Proof.
  unfold fileBaseName. cbv zeta.
  destruct (Z.ltb_spec 0 (Js.lastIndexOf name dot)) as [Hpos|Hnon].
  - destruct (lastIndexOf_split name) as (pre & ext & -> & Hext & Hidx); [lia|].
    rewrite Hidx, slice_prefix. split; [|split].
    + exists (String dot ext). split; [reflexivity|]. right. now exists ext.
    + intros _ ->. cbn in Hidx. lia.
    + rewrite string_length_app. lia.
  - split; [|split].
    + exists "". split; [now rewrite append_nil_r | now left].
    + auto.
    + lia.
Qed.

Lemma fileBaseName_is_prefix_witness : fileBaseName "a.b.c" <> "".
Proof. apply (proj1 (proj2 (fileBaseName_is_prefix "a.b.c"))). discriminate. Defined.

(** * Properties of the route guard *)

Section Guard.

Lemma existsb_elem {A} (f : A -> bool) (l : list A) :
  existsb f l = true <-> exists x, x ∈ l /\ f x = true.
Proof.
  rewrite existsb_exists. split; intros (x & Hin & Hx); exists x;
    (split; [now apply list_elem_of_In | exact Hx]).
Qed.

Lemma STATIC_EXT_spec (p : string) :
  STATIC_EXT p = true
  <-> exists ext, ext ∈ STATIC_EXTENSIONS /\ ci_ends_with p ("." ++ ext).
Proof.
  unfold STATIC_EXT. rewrite existsb_elem. split.
  - intros (ext & Hin & Hends). exists ext. split; [exact Hin|].
    apply endsWith_lower_spec; [|exact Hends].
    repeat (apply elem_of_cons in Hin as [->|Hin]; [reflexivity|]). inversion Hin.
  - intros (ext & Hin & Hends). exists ext. split; [exact Hin|].
    apply endsWith_lower_spec; [|exact Hends].
    repeat (apply elem_of_cons in Hin as [->|Hin]; [reflexivity|]). inversion Hin.
Qed.

Lemma static_extension_not_root (p ext : string) :
  ext ∈ STATIC_EXTENSIONS -> ci_ends_with p ("." ++ ext) -> p <> "/".
Proof.
  intros Hin (pre & suf & -> & Hsuf) Hroot. unfold ci_eq in Hsuf.
  assert (Hl : forall x, String.length (Js.toLowerCase x) = String.length x).
  { intros x. induction x as [|c x IH]; [reflexivity | cbn; now rewrite IH]. }
  assert (Hlen : (2 <= String.length suf)%nat).
  { rewrite <- Hl, Hsuf, Hl, string_length_app. cbn [String.length].
    repeat (apply elem_of_cons in Hin as [->|Hin]; [cbn [String.length]; lia|]).
    inversion Hin. }
  apply (f_equal String.length) in Hroot. rewrite string_length_app in Hroot.
  cbn in Hroot. lia.
Qed.

Lemma proxy_to_inversion (req : Request) (target : string) :
  proxy req = RedirectTo target ->
  has_token req = true
  /\ (pathname req = "/login" \/ pathname req = "/signup")
  /\ exists rest, target = "/" ++ rest.
Proof.
  unfold proxy.
  destruct (String.eqb_spec (pathname req) "/login") as [Hlogin|_];
    [|destruct (String.eqb_spec (pathname req) "/signup") as [Hsignup|_]];
    rewrite ?orb_true_l, ?orb_true_r, ?orb_false_l.
  1,2: destruct (has_token req); [|discriminate];
    (destruct (redirectParam req) as [dest|];
     [destruct (Js.truthy dest && Js.startsWith dest "/") eqn:Hdest|]);
    intros [= <-]; (split; [reflexivity|]); (split; [auto|]);
    try (exists ""; reflexivity);
    apply andb_true_iff in Hdest as [_ Hstart];
    now apply startsWith_spec in Hstart.
  destruct (isPublicPath _); [discriminate|].
  destruct (isHtmlRequest req); cbn [negb]; [|discriminate].
  destruct (has_token req); discriminate.
Qed.

Lemma proxy_login_inversion (req : Request) (redirect : string) :
  proxy req = RedirectToLogin redirect ->
  has_token req = false
  /\ isPublicPath (pathname req) = false
  /\ isHtmlRequest req = true
  /\ pathname req <> "/login" /\ pathname req <> "/signup"
  /\ (pathname req ++ search req <> "" ->
      redirect = pathname req ++ search req).
Proof.
  unfold proxy.
  destruct (String.eqb_spec (pathname req) "/login") as [Hlogin|Hlogin];
    [|destruct (String.eqb_spec (pathname req) "/signup") as [Hsignup|Hsignup]];
    rewrite ?orb_true_l, ?orb_true_r, ?orb_false_l.
  1,2: destruct (has_token req); discriminate.
  destruct (isPublicPath _); [discriminate|].
  destruct (isHtmlRequest req); cbn [negb]; [|discriminate].
  destruct (has_token req); cbn [negb]; [discriminate|].
  rewrite or_else_self. intros Heq.
  assert (Hred : redirect = Js.or_else (Some (pathname req ++ search req)) "/")
    by congruence.
  repeat split; [exact Hlogin | exact Hsignup|].
  intros Hne. rewrite Hred. now apply or_else_keeps.
Qed.

End Guard.

(** X18. [isPublicPath] holds exactly of the paths other than [/] that
    end, up to case, in a dot and one of the static extensions, or are one
    of the public paths, or start with one of the public prefixes, or
    start with a public path followed by [/]. In particular a path with
    a static extension is public wherever it lies. *)
Theorem public_paths (p : string) :
  (isPublicPath p = true
   <-> p <> "/"
       /\ ((exists ext, ext ∈ STATIC_EXTENSIONS /\ ci_ends_with p ("." ++ ext))
           \/ p ∈ PUBLIC_PATHS
           \/ (exists prefix, prefix ∈ PUBLIC_PATH_PREFIXES
                              /\ exists rest, p = prefix ++ rest)
           \/ (exists base, base ∈ PUBLIC_PATHS
                            /\ exists rest, p = base ++ "/" ++ rest)))
  /\ (forall dir file ext,
         ext ∈ STATIC_EXTENSIONS -> Js.toLowerCase file = "." ++ ext ->
         isPublicPath (dir ++ file) = true).
Proof.
  assert (Hspec : isPublicPath p = true
   <-> p <> "/"
       /\ ((exists ext, ext ∈ STATIC_EXTENSIONS /\ ci_ends_with p ("." ++ ext))
           \/ p ∈ PUBLIC_PATHS
           \/ (exists prefix, prefix ∈ PUBLIC_PATH_PREFIXES
                              /\ exists rest, p = prefix ++ rest)
           \/ (exists base, base ∈ PUBLIC_PATHS
                            /\ exists rest, p = base ++ "/" ++ rest))).
  { unfold isPublicPath.
    destruct (String.eqb_spec p "/") as [->|Hroot].
    { split; [discriminate | now intros [H _]]. }
    rewrite <- STATIC_EXT_spec.
    destruct (STATIC_EXT p) eqn:Hstatic; [split; [now split; [|left] | reflexivity]|].
    assert (Hpaths : existsb (String.eqb p) PUBLIC_PATHS = true <-> p ∈ PUBLIC_PATHS).
    { rewrite existsb_elem. split.
      - intros (x & Hin & Hx). apply String.eqb_eq in Hx. now subst.
      - intros Hin. exists p. split; [exact Hin | apply String.eqb_refl]. }
    assert (Hprefix : existsb (Js.startsWith p) PUBLIC_PATH_PREFIXES = true
                      <-> exists prefix, prefix ∈ PUBLIC_PATH_PREFIXES
                                         /\ exists rest, p = prefix ++ rest).
    { rewrite existsb_elem. split; intros (x & Hin & Hx); exists x;
        (split; [exact Hin | now apply startsWith_spec]). }
    assert (Hbase : existsb (fun base => Js.startsWith p (base ++ "/")) PUBLIC_PATHS = true
                    <-> exists base, base ∈ PUBLIC_PATHS
                                     /\ exists rest, p = base ++ "/" ++ rest).
    { rewrite existsb_elem.
      assert (Hassoc : forall a b c : string, (a ++ b) ++ c = a ++ b ++ c).
      { intros a b c. induction a as [|x a IH]; [reflexivity|].
        now rewrite !append_cons, IH. }
      split; intros (x & Hin & Hx); exists x; (split; [exact Hin|]).
      - apply startsWith_spec in Hx as [rest ->]. exists rest. apply Hassoc.
      - apply startsWith_spec. destruct Hx as [rest ->]. exists rest.
        symmetry. apply Hassoc. }
    destruct (existsb (String.eqb p) PUBLIC_PATHS) eqn:H1.
    { split; [intros _ | reflexivity]. split; [exact Hroot|].
      right. left. now apply Hpaths. }
    destruct (existsb (Js.startsWith p) PUBLIC_PATH_PREFIXES) eqn:H2.
    { split; [intros _ | reflexivity]. split; [exact Hroot|].
      right. right. left. now apply Hprefix. }
    rewrite Hbase. split.
    - intros H. split; [exact Hroot|]. now do 3 right.
    - intros [_ [H|[H|[H|H]]]]; [discriminate H | | | exact H].
      + apply Hpaths in H. discriminate H.
      + apply Hprefix in H. discriminate H. }
  split; [exact Hspec|].
  intros dir file ext Hin Hfile.
  assert (Hends : ci_ends_with (dir ++ file) ("." ++ ext)).
  { exists dir, file. split; [reflexivity|]. unfold ci_eq. rewrite Hfile.
    symmetry. repeat (apply elem_of_cons in Hin as [->|Hin]; [reflexivity|]).
    inversion Hin. }
  unfold isPublicPath.
  destruct (String.eqb_spec (dir ++ file) "/") as [Hroot|_].
  { now apply (static_extension_not_root _ ext Hin) in Hends. }
  now rewrite (proj2 (STATIC_EXT_spec (dir ++ file)) (ex_intro _ ext (conj Hin Hends))).
Qed.

Lemma public_paths_witness : isPublicPath ("/reports/2024/secret" ++ ".JSON") = true.
Proof.
  apply (proj2 (public_paths "") "/reports/2024/secret" ".JSON" "json");
    [|reflexivity].
  do 8 right. now left.
Defined.

(** X19. [proxy] never sends a request that carries a cookie to the
    login page, and never redirects a request without a cookie anywhere
    else. When it redirects away from the login or signup page, the
    target starts with [/]. When it redirects to the login page, the path
    is neither public nor the login or signup page, and the [redirect]
    parameter is the requested path followed by its query. *)
Theorem proxy_redirects (req : Request) :
  (forall target,
      proxy req = RedirectTo target ->
      has_token req = true
      /\ (pathname req = "/login" \/ pathname req = "/signup")
      /\ exists rest, target = "/" ++ rest)
  /\ (forall redirect,
         proxy req = RedirectToLogin redirect ->
         has_token req = false
         /\ isPublicPath (pathname req) = false
         /\ isHtmlRequest req = true
         /\ pathname req <> "/login" /\ pathname req <> "/signup"
         /\ (pathname req ++ search req <> "" ->
             redirect = pathname req ++ search req)).
Proof.
  split; [apply proxy_to_inversion | apply proxy_login_inversion].
Qed.

Lemma proxy_redirects_witness :
  exists rest, "/reports?year=2024" = "/" ++ rest.
Proof.
  destruct (proxy_redirects (login_request "/reports?year=2024" "abc")) as [Hto _].
  destruct (Hto "/reports?year=2024" eq_refl) as (_ & _ & Hrest). exact Hrest.
Defined.

(** X20. Signing in brings the user back: when a request whose path
    starts with [/] is sent to the login page, any request for the login
    page that carries the same [redirect] parameter and a cookie is sent
    on to the path and query first asked for; and the login page itself is
    served to a request without a cookie, so the first redirect is not
    repeated. *)
Theorem login_round_trip (req : Request) (redirect : string) :
  proxy req = RedirectToLogin redirect ->
  (exists rest, pathname req = "/" ++ rest) ->
  (forall query hdr cookie, cookie <> "" ->
     proxy {| pathname := "/login"; search := query;
              redirectParam := Some redirect; accept := hdr;
              token := Some cookie |}
     = RedirectTo (pathname req ++ search req))
  /\ (forall query param hdr,
         proxy {| pathname := "/login"; search := query; redirectParam := param;
                  accept := hdr; token := None |} = Next).
Proof.
  intros Hredirect [rest Hpath]. split; [|reflexivity].
  intros query hdr cookie Hcookie.
  assert (Hne : pathname req ++ search req <> "").
  { rewrite Hpath. discriminate. }
  destruct (proxy_login_inversion req redirect Hredirect)
    as (_ & _ & _ & _ & _ & Htarget).
  rewrite (Htarget Hne). unfold proxy, has_token.
  cbn [pathname token redirectParam String.eqb orb].
  change ("/login" =? "/login")%string with true. cbn [orb].
  rewrite (truthy_nonempty cookie Hcookie), (truthy_nonempty _ Hne). cbn [andb].
  assert (Hstart : Js.startsWith (pathname req ++ search req) "/" = true).
  { apply startsWith_spec. rewrite Hpath. now exists (rest ++ search req). }
  now rewrite Hstart.
Qed.

Lemma login_round_trip_witness :
  proxy (login_request "/reports?year=2024" "abc")
  = RedirectTo ("/reports" ++ "?year=2024").
Proof.
  apply (proj1 (login_round_trip (page_request "/reports" "?year=2024")
                  "/reports?year=2024" eq_refl (ex_intro _ "reports" eq_refl))
               "" (Some "text/html") "abc").
  discriminate.
Defined.

(** * Properties of the sender profiles, the environment and the login *)

Section Store.

Context {V : Type}.

Lemma map_get_set_eq (k : string) (v : V) (m : list (string * V)) :
  map_get k (map_set k v m) = Some v.
Proof.
  induction m as [|[k' v'] m IH]; cbn [map_set map_get].
  - now rewrite decide_True.
  - destruct (decide (k' = k)) as [->|Hne]; cbn [map_get].
    + now rewrite decide_True.
    + now rewrite decide_False.
Qed.

Lemma map_get_set_ne (k other : string) (v : V) (m : list (string * V)) :
  other <> k -> map_get other (map_set k v m) = map_get other m.
Proof.
  intros Hne. induction m as [|[k' v'] m IH]; cbn [map_set map_get].
  - now rewrite decide_False by congruence.
  - destruct (decide (k' = k)) as [->|Hk]; cbn [map_get].
    + now rewrite !decide_False by congruence.
    + destruct (decide (k' = other)); [reflexivity | exact IH].
Qed.

Lemma map_set_keys_present (k : string) (v : V) (m : list (string * V)) :
  k ∈ m.*1 -> (map_set k v m).*1 = m.*1.
Proof.
  induction m as [|[k' v'] m IH]; intros Hin; [inversion Hin|].
  cbn [map_set]. destruct (decide (k' = k)) as [->|Hne]; [reflexivity|].
  cbn [fmap list_fmap fst] in *. f_equal. apply IH.
  apply elem_of_cons in Hin as [Hin|Hin]; [congruence | exact Hin].
Qed.

Lemma map_set_keys_absent (k : string) (v : V) (m : list (string * V)) :
  k ∉ m.*1 -> (map_set k v m).*1 = (m.*1 ++ [k])%list.
Proof.
  induction m as [|[k' v'] m IH]; intros Hnot; [reflexivity|].
  cbn [map_set]. cbn [fmap list_fmap fst] in Hnot.
  destruct (decide (k' = k)) as [->|Hne]; [exfalso; apply Hnot; now left|].
  cbn [fmap list_fmap fst app]. f_equal. apply IH.
  intros Hin. apply Hnot. now right.
Qed.

Lemma map_set_keys_NoDup (k : string) (v : V) (m : list (string * V)) :
  NoDup m.*1 -> NoDup (map_set k v m).*1.
Proof.
  intros Hnodup. destruct (decide (k ∈ m.*1)) as [Hin|Hnot].
  - now rewrite map_set_keys_present.
  - rewrite map_set_keys_absent by exact Hnot.
    apply NoDup_app. split; [exact Hnodup|]. split.
    + intros x Hx Hk. apply list_elem_of_singleton in Hk. congruence.
    + apply NoDup_singleton.
Qed.

Lemma map_set_keys_elem (k x : string) (v : V) (m : list (string * V)) :
  x ∈ (map_set k v m).*1 <-> x = k \/ x ∈ m.*1.
Proof.
  destruct (decide (k ∈ m.*1)) as [Hin|Hnot].
  - rewrite map_set_keys_present by exact Hin. split; [auto|].
    intros [->|H]; assumption.
  - rewrite map_set_keys_absent by exact Hnot.
    rewrite elem_of_app, list_elem_of_singleton. tauto.
Qed.

End Store.

Section ProfileFacts.

Lemma trim_or_else (name : string) : Js.or_else (Some name) "" = name.
Proof. apply or_else_self. Qed.

Lemma setProfile_named (st : Profiles) (name : string) (env : gmap string string) :
  Js.trim name <> "" ->
  setProfile st name env
  = {| profileStore := map_set (Js.trim name) env (profileStore st);
       activeProfileName := Some (Js.trim name) |}.
Proof.
  intros Hne. unfold setProfile. rewrite trim_or_else. cbv zeta.
  now rewrite (truthy_nonempty _ Hne).
Qed.

Lemma setProfile_blank (st : Profiles) (name : string) (env : gmap string string) :
  Js.trim name = "" -> setProfile st name env = st.
Proof.
  intros Hblank. unfold setProfile. rewrite trim_or_else, Hblank. reflexivity.
Qed.

End ProfileFacts.

Section ProfileInvariant.

Lemma setProfile_consistent (st : Profiles) (name : string) (env : gmap string string) :
  profiles_consistent st -> profiles_consistent (setProfile st name env).
Proof.
  intros (Hnodup & Hempty & Hnone & Hactive).
  destruct (String.eqb_spec (Js.trim name) "") as [Hblank|Hne].
  { rewrite setProfile_blank by exact Hblank.
    exact (conj Hnodup (conj Hempty (conj Hnone Hactive))). }
  rewrite setProfile_named by exact Hne.
  unfold profiles_consistent, listProfiles, getActiveEnv.
  cbn [profileStore activeProfileName].
  split; [now apply map_set_keys_NoDup|]. split; [|split].
  - intros Hin. apply map_set_keys_elem in Hin as [Hin|Hin];
      [congruence | now apply Hempty].
  - discriminate.
  - intros n [= <-]. split; [apply map_set_keys_elem; now left|].
    now rewrite (truthy_nonempty _ Hne), !map_get_set_eq.
Qed.

Lemma reachable_consistent (st : Profiles) :
  profiles_reachable st -> profiles_consistent st.
Proof.
  induction 1 as [|st c _ IH].
  - repeat split; [constructor | intros H; inversion H | discriminate | discriminate].
  - destruct c as [name env|]; cbn [call].
    + now apply setProfile_consistent.
    + repeat split; [constructor | intros H; inversion H | discriminate | discriminate].
Qed.

End ProfileInvariant.

(** X21. Setting a profile under a name made of ASCII characters and
    reading it back: a name that is blank once trimmed changes nothing;
    otherwise the trimmed name becomes the active profile, [getActiveEnv]
    returns the environment just stored, the profiles under other names
    are untouched, and the name keeps its place in [listProfiles] when it
    was there and goes last when it was not. *)
Theorem set_profile_round_trip
    (st : Profiles) (name : string) (env : gmap string string) :
  let st' := setProfile st name env in
  ascii_only name = true ->
  (Js.trim name = "" -> st' = st)
  /\ (Js.trim name <> "" ->
      activeProfileName st' = Some (Js.trim name)
      /\ getActiveEnv st' = env
      /\ (forall other, other <> Js.trim name ->
            map_get other (profileStore st') = map_get other (profileStore st))
      /\ (Js.trim name ∈ listProfiles st -> listProfiles st' = listProfiles st)
      /\ (Js.trim name ∉ listProfiles st ->
          listProfiles st' = (listProfiles st ++ [Js.trim name])%list)).
Proof.
  cbv zeta. intros _. split; [apply setProfile_blank|].
  intros Hne. rewrite setProfile_named by exact Hne.
  unfold getActiveEnv, listProfiles. cbn [profileStore activeProfileName].
  rewrite (truthy_nonempty _ Hne), map_get_set_eq.
  repeat split.
  - intros other Hother. now apply map_get_set_ne.
  - apply map_set_keys_present.
  - apply map_set_keys_absent.
Qed.

Lemma set_profile_round_trip_witness :
  getActiveEnv (setProfile no_profiles "  work " {[ "SENDER_NAME" := "Ops" ]})
  = {[ "SENDER_NAME" := "Ops" ]}
  /\ setProfile no_profiles "   " {[ "SENDER_NAME" := "Ops" ]} = no_profiles.
Proof.
  split.
  - apply (proj2 (set_profile_round_trip no_profiles "  work "
                    {[ "SENDER_NAME" := "Ops" ]} eq_refl)). discriminate.
  - now apply (proj1 (set_profile_round_trip no_profiles "   "
                        {[ "SENDER_NAME" := "Ops" ]} eq_refl)).
Defined.

(** X22. In every state reached by [setProfile] and [clearAllProfiles]
    from the empty store: no name is listed twice and none is empty; there
    is no active profile exactly when the store is empty; and the active
    profile is always a stored one, whose environment is what
    [getActiveEnv] returns. *)
Theorem profiles_stay_consistent (st : Profiles) :
  profiles_reachable st ->
  NoDup (listProfiles st)
  /\ ("" ∉ listProfiles st)
  /\ (activeProfileName st = None <-> listProfiles st = [])
  /\ (forall n, activeProfileName st = Some n ->
        n ∈ listProfiles st
        /\ map_get n (profileStore st) = Some (getActiveEnv st)).
Proof.
  intros Hreach. destruct (reachable_consistent st Hreach)
    as (Hnodup & Hempty & Hnone & Hactive).
  split; [exact Hnodup|]. split; [exact Hempty|]. split; [|exact Hactive].
  split.
  - intros H. unfold listProfiles. now rewrite (Hnone H).
  - intros Hnil. destruct (activeProfileName st) as [n|] eqn:Hn; [|reflexivity].
    destruct (Hactive n eq_refl) as [Hin _]. rewrite Hnil in Hin. inversion Hin.
Qed.

Lemma profiles_stay_consistent_witness :
  NoDup (listProfiles
           (call (call (call no_profiles (CallSet "a" ∅)) (CallSet " b" ∅))
                 (CallSet "a " {[ "PORT" := "465" ]}))).
Proof.
  apply profiles_stay_consistent. repeat constructor.
Defined.

Section Environment.

Lemma without_last_snoc (q : ascii) (s : string) :
  without_last q (s ++ String q "") = Some s.
Proof.
  induction s as [|a s IH].
  - change ("" ++ String q "") with (String q ""). cbn [without_last].
    now rewrite Ascii.eqb_refl.
  - rewrite append_cons. cbn [without_last].
    destruct (s ++ String q "") as [|b r] eqn:Hrest.
    + destruct s; discriminate Hrest.
    + now rewrite IH.
Qed.

Lemma trimEnd_snoc (q : ascii) (s : string) :
  Js.is_space q = false -> Js.trimEnd (s ++ String q "") = s ++ String q "".
Proof.
  intros Hq. induction s as [|a s IH].
  - change ("" ++ String q "") with (String q ""). cbn [Js.trimEnd].
    now rewrite Hq.
  - rewrite append_cons. cbn [Js.trimEnd]. rewrite IH.
    destruct (s ++ String q "") as [|b r] eqn:Hrest; [|reflexivity].
    destruct s; discriminate Hrest.
Qed.

(** A value in quotes is not changed by [trim]. *)
Lemma trim_quoted (q : ascii) (inner : string) :
  Js.is_space q = false ->
  Js.trim (String q (inner ++ String q "")) = String q (inner ++ String q "").
Proof.
  intros Hq. unfold Js.trim. cbn [Js.trimStart]. rewrite Hq.
  change (String q (inner ++ String q "")) with (String q inner ++ String q "").
  now apply trimEnd_snoc.
Qed.

Lemma readEnv_none (env : gmap string string) (key : string) :
  readEnv env key = None
  <-> env !! key = None \/ exists raw, env !! key = Some raw /\ Js.trim raw = "".
Proof.
  unfold readEnv. destruct (env !! key) as [raw|].
  - cbv zeta. unfold Js.truthy. rewrite negb_involutive.
    destruct (String.eqb_spec (Js.trim raw) "") as [Hblank|Hne].
    + split; [intros _; right; now exists raw | reflexivity].
    + split; [discriminate | intros [[=]|(r & [= <-] & Hr)]; congruence].
  - split; [now left | reflexivity].
Qed.

Lemma nullish_none_l {A} (b : option A) : nullish None b = b.
Proof. reflexivity. Qed.

Lemma nullish_same {A} (a : option A) : nullish a a = a.
Proof. now destruct a. Qed.

End Environment.

(** X23. For a variable whose name is not a property name of
    [Object.prototype] and whose value, if any, is made of ASCII
    characters: [readEnv] gives [undefined] exactly when the variable is
    not set or is blank once trimmed. A value that does not start with a
    quote is returned trimmed. A value in double quotes, on one line, is
    returned without them and then without single quotes around it if
    there are any: in particular the value of two double quotes gives the
    empty string, not [undefined]. *)
Theorem readEnv_values (env : gmap string string) (key : string) :
  inherited key = false ->
  (forall raw, env !! key = Some raw -> ascii_only raw = true) ->
  (readEnv env key = None
   <-> env !! key = None \/ exists raw, env !! key = Some raw /\ Js.trim raw = "")
  /\ (forall raw c rest,
         env !! key = Some raw -> Js.trim raw = String c rest ->
         c <> double_quote -> c <> single_quote ->
         readEnv env key = Some (Js.trim raw))
  /\ (forall inner,
         env !! key = Some (String double_quote (inner ++ String double_quote "")) ->
         one_line inner = true ->
         readEnv env key = Some (strip_quotes single_quote inner))
  /\ (env !! key = Some (String double_quote (String double_quote "")) ->
      readEnv env key = Some "").
Proof.
  intros _ _. split; [apply readEnv_none|].
  assert (Hquoted : forall inner,
             env !! key = Some (String double_quote (inner ++ String double_quote "")) ->
             one_line inner = true ->
             readEnv env key = Some (strip_quotes single_quote inner)).
  { intros inner Hraw Hline. unfold readEnv. rewrite Hraw. cbv zeta.
    rewrite trim_quoted by reflexivity. cbn [Js.truthy String.eqb negb].
    f_equal. f_equal. unfold strip_quotes at 1.
    now rewrite Ascii.eqb_refl, without_last_snoc, Hline. }
  split; [|split; [exact Hquoted|]].
  - intros raw c rest Hraw Htrim Hdouble Hsingle. unfold readEnv.
    rewrite Hraw. cbv zeta. rewrite Htrim. cbn [Js.truthy String.eqb negb].
    f_equal. unfold strip_quotes.
    destruct (Ascii.eqb_spec c double_quote) as [->|_]; [congruence|].
    destruct (Ascii.eqb_spec c single_quote) as [->|_]; [congruence|].
    reflexivity.
  - intros Hraw. now apply (Hquoted "").
Qed.

Lemma readEnv_values_witness :
  readEnv {[ "PORT" := " 465 " ]} "PORT" = Some "465"
  /\ readEnv {[ "NAME" := String double_quote (String double_quote "") ]} "NAME"
     = Some "".
Proof.
  split.
  - destruct (readEnv_values {[ "PORT" := " 465 " ]} "PORT" eq_refl)
      as (_ & Hplain & _).
    + intros raw Hraw. vm_compute in Hraw. injection Hraw as <-. reflexivity.
    + apply (Hplain " 465 " "4"%char "65"); [reflexivity | reflexivity | |];
        discriminate.
  - destruct (readEnv_values
                {[ "NAME" := String double_quote (String double_quote "") ]} "NAME"
                eq_refl)
      as (_ & _ & _ & Hempty).
    + intros raw Hraw. vm_compute in Hraw. injection Hraw as <-. reflexivity.
    + now apply Hempty.
Defined.

(** X24. The no-reply variant falls back, field by field, on the
    variables of the main variant: when none of the no-reply variables is
    set, [getEnvForVariant] gives for it exactly what it gives for
    [cyberph]; a no-reply sender address that is set wins over the main
    one. The default variant has no field at all, and the three plain
    variants never have a host or a port. *)
Theorem noreply_falls_back (env : gmap string string) :
  ((forall v, v ∈ noreply_variables -> env !! v = None) ->
   getEnvForVariant env VCyberphNoreply = getEnvForVariant env VCyberph)
  /\ (forall e,
         readEnv env "CYBERPH_NOREPLY_SENDER_EMAIL" = Some e ->
         SENDER_EMAIL (getEnvForVariant env VCyberphNoreply) = Some e)
  /\ getEnvForVariant env VDefault = no_env
  /\ (forall variant,
         variant = VIcpep \/ variant = VCisco \/ variant = VArduinodayph ->
         HOST_DOMAIN (getEnvForVariant env variant) = None
         /\ PORT (getEnvForVariant env variant) = None
         /\ PORT_ALT (getEnvForVariant env variant) = None).
Proof.
  split; [|split; [|split]].
  - intros Hunset.
    assert (Hread : forall v, v ∈ noreply_variables -> readEnv env v = None).
    { intros v Hv. apply readEnv_none. left. now apply Hunset. }
    unfold getEnvForVariant, readCyberphEnv, readPassword.
    rewrite !nullish_same.
    rewrite (Hread ("CYBERPH_NOREPLY" ++ "_SENDER_EMAIL"))
      by (vm_compute; set_solver).
    rewrite (Hread ("CYBERPH_NOREPLY" ++ "_SENDER_APP_PASSWORD"))
      by (vm_compute; set_solver).
    rewrite (Hread ("CYBERPH_NOREPLY" ++ "_SENDER_PASSWORD"))
      by (vm_compute; set_solver).
    rewrite (Hread ("CYBERPH_NOREPLY" ++ "_SENDER_NAME"))
      by (vm_compute; set_solver).
    rewrite (Hread ("CYBERPH_NOREPLY" ++ "_HOST_DOMAIN"))
      by (vm_compute; set_solver).
    rewrite (Hread ("CYBERPH_NOREPLY" ++ "_PORT"))
      by (vm_compute; set_solver).
    rewrite (Hread ("CYBERPH_NOREPLY" ++ "_PORT_ALT"))
      by (vm_compute; set_solver).
    reflexivity.
  - intros e He. cbn [getEnvForVariant]. unfold readCyberphEnv. cbn [SENDER_EMAIL].
    change ("CYBERPH_NOREPLY" ++ "_SENDER_EMAIL") with "CYBERPH_NOREPLY_SENDER_EMAIL".
    now rewrite He.
  - reflexivity.
  - intros variant [->|[->| ->]]; repeat split.
Qed.

Lemma noreply_falls_back_witness :
  getEnvForVariant {[ "CYBERPH_SENDER_EMAIL" := "ops@x.org" ]} VCyberphNoreply
  = getEnvForVariant {[ "CYBERPH_SENDER_EMAIL" := "ops@x.org" ]} VCyberph.
Proof.
  apply (proj1 (noreply_falls_back {[ "CYBERPH_SENDER_EMAIL" := "ops@x.org" ]})).
  intros v Hv. apply lookup_singleton_None.
  repeat (apply elem_of_cons in Hv as [->|Hv]; [discriminate|]). inversion Hv.
Defined.

Section Credentials.

Variable generateAuthToken : string -> string.

Lemma toLowerCase_empty (s : string) : Js.toLowerCase s = "" <-> s = "".
Proof. destruct s; split; (reflexivity || discriminate). Qed.

Lemma falsy_spec (x : option string) :
  falsy x = false <-> exists s, x = Some s /\ s <> "".
Proof.
  unfold falsy, Js.truthy. destruct x as [s|].
  - rewrite negb_involutive. destruct (String.eqb_spec s "") as [->|Hs].
    + split; [discriminate | intros (s & [= <-] & H); congruence].
    + split; [intros _; now exists s | reflexivity].
  - split; [discriminate | intros (s & [=] & _)].
Qed.

Lemma validateCredentials_spec (env : AdminEnv) (email password : string) :
  validateCredentials env email password = true
  <-> exists adminEmail,
        ADMIN_EMAIL env = Some adminEmail /\ Js.trim adminEmail <> ""
        /\ Js.toLowerCase (Js.trim email) = Js.toLowerCase (Js.trim adminEmail)
        /\ ADMIN_PASSWORD env = Some password /\ password <> "".
Proof.
  unfold validateCredentials, getAdminCredentials. cbv zeta. cbn [fst snd].
  destruct (falsy _ || falsy _) eqn:Hfalsy.
  - split; [discriminate|].
    intros (ae & Hae & Hne & _ & Hap & Hp). exfalso.
    apply orb_true_iff in Hfalsy as [Hf|Hf]; apply not_false_iff_true in Hf;
      apply Hf, falsy_spec.
    + rewrite Hae. exists (Js.toLowerCase (Js.trim ae)). split; [reflexivity|].
      intros H. apply (proj1 (toLowerCase_empty _)) in H. contradiction.
    + now exists password.
  - apply orb_false_iff in Hfalsy as [He Hp].
    apply falsy_spec in He as (e & He & Hene). apply falsy_spec in Hp as (p & Hp & Hpne).
    rewrite He, Hp, andb_true_iff, !bool_decide_eq_true.
    destruct (ADMIN_EMAIL env) as [ae|]; [|discriminate].
    injection He as <-. split.
    + intros [[= Hemail] [= ->]]. exists ae. repeat split; try assumption.
      intros H. apply Hene. now rewrite H.
    + intros (ae' & [= <-] & _ & Hemail & Hap & _).
      injection Hap as ->. now rewrite Hemail.
Qed.

(** X25. When the email typed and the administrator's email are made of
    ASCII characters, a login succeeds exactly when the email and the
    password are not empty, the administrator's email is configured and
    is not blank, the two emails are equal once trimmed and put in lower
    case, and the password is the configured one, character for
    character. The cookie of a success is the token of the email as it
    was typed, and when the email or the password of the administrator is
    not configured every login fails. *)
Theorem login_succeeds_iff (env : AdminEnv) (email password : string) :
  ascii_only email = true ->
  (forall adminEmail, ADMIN_EMAIL env = Some adminEmail -> ascii_only adminEmail = true) ->
  ((exists cookie, loginAction generateAuthToken env email password = LoginOk cookie)
   <-> email <> "" /\ password <> ""
       /\ exists adminEmail,
            ADMIN_EMAIL env = Some adminEmail /\ Js.trim adminEmail <> ""
            /\ Js.toLowerCase (Js.trim email) = Js.toLowerCase (Js.trim adminEmail)
            /\ ADMIN_PASSWORD env = Some password)
  /\ (forall cookie,
         loginAction generateAuthToken env email password = LoginOk cookie ->
         cookie = generateAuthToken email)
  /\ (ADMIN_EMAIL env = None \/ ADMIN_PASSWORD env = None ->
      exists message,
        loginAction generateAuthToken env email password = LoginError message).
Proof.
  intros _ _. unfold loginAction, Js.truthy. rewrite !negb_involutive.
  destruct (String.eqb_spec email "") as [->|Hemail];
    [|destruct (String.eqb_spec password "") as [->|Hpassword]]; cbn [orb].
  1,2: split; [split; [intros [c [=]] | intros (H1 & H2 & _); congruence]|];
    split; [discriminate | eauto].
  destruct (validateCredentials env email password) eqn:Hvalid; cbn [negb].
  - apply validateCredentials_spec in Hvalid as (ae & Hae & Hne & Heq & Hap & _).
    split; [|split].
    + split; [intros _ | eauto]. repeat split; try assumption. now exists ae.
    + now intros cookie [= <-].
    + intros [H|H]; congruence.
  - split; [|split; [discriminate | eauto]].
    split; [intros [c [=]]|]. intros (_ & _ & ae & Hae & Hne & Heq & Hap).
    apply not_true_iff_false in Hvalid. exfalso. apply Hvalid.
    apply validateCredentials_spec. now exists ae.
Qed.

End Credentials.

Lemma login_succeeds_iff_witness :
  exists cookie,
    loginAction (fun email => "token:" ++ email) sample_admin
      "admin@example.ORG  " "s3cret" = LoginOk cookie.
Proof.
  assert (Hadmin : forall adminEmail,
             ADMIN_EMAIL sample_admin = Some adminEmail -> ascii_only adminEmail = true).
  { intros adminEmail [= <-]. reflexivity. }
  apply (proj1 (login_succeeds_iff (fun email => "token:" ++ email) sample_admin
                  "admin@example.ORG  " "s3cret" eq_refl Hadmin)).
  split; [discriminate|]. split; [discriminate|].
  exists " Admin@Example.org ". repeat split. discriminate.
Defined.

(** X26. The "Reset" button brings the component back to its first
    render without a mapping, whatever happened before; so a load that
    follows it takes nothing over from the old mapping: on a non-empty
    header list the recipient and name columns it hands to [onParsed] are
    headers of the new table. *)
Theorem reset_then_load_is_fresh
    (st : State) (fname : string) (data : list (option Row)) (hs : list string) :
  hs <> [] ->
  next (resetAll st) = initial None
  /\ exists c m,
       onParsed (handleFile (next (resetAll st)) fname (Complete data (Some hs)))
       = [(c, m)]
       /\ headers c = hs /\ valid_mapping c m
       /\ recipient m = Some (guessRecipient hs)
       /\ name m = Some (guessName hs)
       /\ subject m = guessSubject hs.
Proof.
  intros Hne. split; [reflexivity|].
  assert (Hlen : (Z.of_nat (length hs) =? 0) = false).
  { destruct hs; [congruence | reflexivity]. }
  unfold handleFile. change (default [] (Some hs)) with hs. rewrite Hlen.
  eexists _, _. split; [reflexivity|]. cbn.
  split; [reflexivity|]. split; [|now repeat split].
  split; (eexists; split; [reflexivity|]); now apply guess_in_headers.
Qed.

Lemma reset_then_load_is_fresh_witness :
  exists c m,
    onParsed (handleFile (next (resetAll sample_state)) "staff.csv"
                (Complete [] (Some ["Mail"; "Person"]))) = [(c, m)]
    /\ valid_mapping c m.
Proof.
  destruct (reset_then_load_is_fresh sample_state "staff.csv" [] ["Mail"; "Person"])
    as (_ & c & m & Hemit & _ & Hvalid & _); [discriminate|].
  now exists c, m.
Defined.

Section GuardMore.

Lemma hasExt_spec (s : string) :
  hasExt s = true
  <-> exists pre ext, s = pre ++ String dot ext /\ ext <> "" /\ all_alnum ext = true.
Proof.
  induction s as [|c s IH]; cbn [hasExt].
  - split; [discriminate|]. intros (pre & ext & H & _). destruct pre; discriminate H.
  - rewrite orb_true_iff, !andb_true_iff, IH, Ascii.eqb_eq, negb_true_iff,
      String.eqb_neq. split.
    + intros [[[-> Hne] Halnum]|(pre & ext & -> & Hne & Halnum)].
      * now exists "", s.
      * exists (String c pre), ext. now rewrite append_cons.
    + intros (pre & ext & Hs & Hne & Halnum). destruct pre as [|x pre].
      * injection Hs as -> ->. now left.
      * rewrite append_cons in Hs. injection Hs as -> ->. right. now exists pre, ext.
Qed.

End GuardMore.

(** X27. A request that does not accept [text/html] is never sent to the
    login page when its path ends in a dot followed by letters or digits,
    or starts with [/api/], whether or not it carries a cookie; an
    [Accept] header with [text/html] makes any request a page request. *)
Theorem non_page_requests_pass (req : Request) :
  (Js.includes (Js.or_else (accept req) "") "text/html" = false ->
   (exists pre ext, pathname req = pre ++ String dot ext /\ ext <> ""
                    /\ all_alnum ext = true)
   \/ (exists rest, pathname req = "/api/" ++ rest) ->
   isHtmlRequest req = false
   /\ forall redirect, proxy req <> RedirectToLogin redirect)
  /\ (Js.includes (Js.or_else (accept req) "") "text/html" = true ->
      isHtmlRequest req = true).
Proof.
  split.
  - intros Haccept Hpath.
    assert (Hhtml : isHtmlRequest req = false).
    { unfold isHtmlRequest. rewrite Haccept. apply andb_false_iff.
      destruct Hpath as [Hext|Hapi].
      - left. apply negb_false_iff. now apply hasExt_spec.
      - right. apply negb_false_iff. now apply startsWith_spec. }
    split; [exact Hhtml|]. intros redirect Hproxy.
    destruct (proxy_login_inversion req redirect Hproxy) as (_ & _ & Hpage & _).
    congruence.
  - intros Haccept. unfold isHtmlRequest. now rewrite Haccept.
Qed.

Lemma non_page_requests_pass_witness :
  proxy {| pathname := "/orders/export.v2"; search := ""; redirectParam := None;
           accept := Some "application/json"; token := None |}
  <> RedirectToLogin "/orders/export.v2".
Proof.
  apply (proj1 (non_page_requests_pass
                  {| pathname := "/orders/export.v2"; search := "";
                     redirectParam := None; accept := Some "application/json";
                     token := None |})); [reflexivity|].
  left. exists "/orders/export", "v2". repeat split. discriminate.
Defined.
